(** * SSH tunnel bootstrap of robomongo: [src/robomongo/ssh/server.c]

    A shallow embedding of [init], [cleanup], [socket_connect],
    [socket_listen], [ssh_connect] and [main].  The C functions talk to the
    socket layer and to libssh2; here every such call is an operation of a
    small monad that

    - asks an [environment] for the value the call returns,
    - updates the [process] resources (open descriptors, live sessions,
      library reference counts), and
    - appends the call, with its arguments, to the list of emitted events.

    Dereferencing a NULL pointer that the environment handed back is
    [Undefined]: the run stops there. *)

From Stdlib Require Import ZArith List String Ascii Bool Lia.
Import ListNotations.

Local Open Scope string_scope.
Local Open Scope Z_scope.

(** ** Events *)

Inductive log_level := LogError | LogMsg.

(** Calls that leave the program, with the arguments that matter. *)
Inductive call :=
| c_WSAStartup
| c_WSACleanup
| c_libssh2_init (flags : Z)
| c_libssh2_exit
| c_socket
| c_inet_addr (ip : string)
| c_connect (fd addr port : Z)
| c_setsockopt (fd : Z)
| c_bind (fd addr port : Z)
| c_listen (fd backlog : Z)
| c_session_init
| c_session_handshake (session sock : Z)
| c_hostkey_hash (session : Z)
| c_userauth_list (session : Z) (username : string)
| c_userauth_password (session : Z) (username password : string)
| c_userauth_publickey_fromfile
    (session : Z) (username publickey privatekey passphrase : string).

Inductive event :=
| Call (c : call)
| Log (lvl : log_level) (fmt : string).

(** ** Environment and process state *)

(** What the outside world answers.  [socket] is the only call made more
    than once in a run, so its answer is indexed by the number of earlier
    calls.  Pointers are integers, [0] is NULL; a C string the environment
    returns is [None] when the pointer is NULL.

    [inet_addr] belongs to the C library of the platform, and what it
    accepts differs from one library to the next: its answer is the
    environment's too.  [r_inet_addr e ip] is [None] when the library
    finds [ip] malformed, and [Some v] when it reads the address [v], the
    four bytes taken as one number, first byte first. *)
Record environment := {
  win32 : bool;                           (* compiled with WIN32 *)
  r_WSAStartup : Z;
  r_libssh2_init : Z;
  r_socket : nat -> Z;
  r_inet_addr : string -> option Z;
  r_connect : Z;
  r_bind : Z;
  r_listen : Z;
  r_session_init : Z;
  r_session_handshake : Z;
  r_hostkey_hash : option string;
  r_userauth_list : option string;
  r_userauth_password : Z;
  r_userauth_publickey_fromfile : Z
}.

Record process := {
  wsa_refs : nat;            (* WSAStartup calls not yet matched *)
  libssh2_refs : nat;        (* libssh2_init calls not yet matched *)
  socket_calls : nat;        (* how many times socket() was called *)
  open_fds : list Z;         (* descriptors created and not closed *)
  live_sessions : list Z     (* sessions created and not freed *)
}.

Definition boot : process :=
  {| wsa_refs := 0; libssh2_refs := 0; socket_calls := 0;
     open_fds := []; live_sessions := [] |}.

(** ** The monad *)

Inductive outcome (A : Type) :=
| Val (a : A)
| Undefined.
Arguments Val {A} a.
Arguments Undefined {A}.

Record result (A : Type) := mkResult {
  value : outcome A;
  after : process;
  emitted : list event
}.
Arguments mkResult {A}.
Arguments value {A}.
Arguments after {A}.
Arguments emitted {A}.

Definition M (A : Type) := environment -> process -> result A.

Definition ret {A} (a : A) : M A :=
  fun _ p => mkResult (Val a) p [].

Definition bind {A B} (m : M A) (f : A -> M B) : M B :=
  fun e p =>
    match m e p with
    | mkResult (Val a) p1 evs1 =>
        match f a e p1 with
        | mkResult v p2 evs2 => mkResult v p2 (evs1 ++ evs2)%list
        end
    | mkResult Undefined p1 evs1 => mkResult Undefined p1 evs1
    end.

Notation "x <- m ;; k" := (bind m (fun x => k))
  (at level 61, m at next level, right associativity).
Notation "m ;; k" := (bind m (fun _ => k))
  (at level 61, right associativity).

Definition emit (ev : event) : M unit :=
  fun _ p => mkResult (Val tt) p [ev].

Definition ask {A} (f : environment -> A) : M A :=
  fun e p => mkResult (Val (f e)) p [].

Definition get {A} (f : process -> A) : M A :=
  fun _ p => mkResult (Val (f p)) p [].

Definition update (f : process -> process) : M unit :=
  fun _ p => mkResult (Val tt) (f p) [].

Definition undefined {A} : M A :=
  fun _ p => mkResult Undefined p [].

(** Reading through a [char *]: NULL is undefined behaviour. *)
Definition deref {A} (ptr : option A) : M A :=
  match ptr with
  | Some a => ret a
  | None => undefined
  end.

Definition when (b : bool) (m : M unit) : M unit :=
  if b then m else ret tt.

(** ** log.h

    A log event keeps the level and the format string.  The arguments are
    not kept: two runs with equal events may print different text where an
    argument differs, so runs whose logged arguments can differ are
    compared by value, resources and calls. *)

Definition log_error (fmt : string) : M unit := emit (Log LogError fmt).
Definition log_msg (fmt : string) : M unit := emit (Log LogMsg fmt).

(** ** C library pieces used by the code *)

Definition LF : string := String (ascii_of_nat 10) "".

(** [strstr]: the suffix of [hay] starting at the first occurrence of
    [needle], NULL ([None]) when there is none. *)
Fixpoint strstr (hay needle : string) : option string :=
  if prefix needle hay then Some hay
  else match hay with
       | "" => None
       | String _ rest => strstr rest needle
       end.

(** A pointer in a condition. *)
Definition non_null {A} (p : option A) : bool :=
  match p with Some _ => true | None => false end.

(** [htons] takes a 16 bit value: the [int] argument is truncated. *)
Definition htons (port : Z) : Z := port mod 65536.

(** [in_addr_t] is an unsigned 32 bit integer. *)
Definition in_addr_t (z : Z) : Z := z mod 2 ^ 32.

(** [#define INADDR_NONE (in_addr_t)-1] *)
Definition INADDR_NONE : Z := in_addr_t (-1).

(** [socket_invalid]: -1, and on Windows [INVALID_SOCKET], the value
    [(SOCKET)-1] to which the [-1] of the code converts. *)
Definition socket_invalid : Z := -1.

(** ** [inet_addr]

    What [inet_addr] returns to the program: [INADDR_NONE] for a string
    the library finds malformed, the address otherwise.  The program
    cannot tell [INADDR_NONE] from the address whose four bytes are 255,
    in whatever order the bytes are stored. *)
Definition inet_addr_value (e : environment) (ip : string) : Z :=
  match r_inet_addr e ip with
  | Some v => in_addr_t v
  | None => INADDR_NONE
  end.

(** ** The [inet_addr] of the sample environments

    The environments used for concrete runs answer as the GNU C library
    does.  It reads the numbers-and-dots notation: one to four numbers
    separated by dots, each written as in C (decimal, octal with a leading
    [0], hexadecimal with a leading [0x]); with fewer than four numbers
    the last one fills the remaining bytes.  It stops at the first white
    space after the last number and ignores what follows. *)

Definition digit_value (base : Z) (c : ascii) : option Z :=
  let n := Z.of_nat (nat_of_ascii c) in
  if (48 <=? n) && (n <=? 57) then
    if n - 48 <? base then Some (n - 48) else None
  else if (base =? 16) && (97 <=? n) && (n <=? 102) then Some (n - 87)
  else if (base =? 16) && (65 <=? n) && (n <=? 70) then Some (n - 55)
  else None.

Fixpoint digits (base : Z) (s : string) (acc : Z) : option Z :=
  match s with
  | "" => Some acc
  | String c rest =>
      match digit_value base c with
      | Some d => digits base rest (acc * base + d)
      | None => None
      end
  end.

Definition is_x (c : ascii) : bool :=
  Ascii.eqb c "x" || Ascii.eqb c "X".

(** A number in C notation; at least one digit is required. *)
Definition c_number (s : string) : option Z :=
  match s with
  | "" => None
  | String c rest =>
      if Ascii.eqb c "0" then
        match rest with
        | "" => Some 0
        | String x hex =>
            if is_x x then
              match hex with
              | "" => None
              | _ => digits 16 hex 0
              end
            else digits 8 rest 0
        end
      else digits 10 s 0
  end.

(** The pieces of [s] between occurrences of [sep]. *)
Fixpoint split_on (sep : ascii) (s : string) : list string :=
  match s with
  | "" => [""]
  | String c rest =>
      if Ascii.eqb c sep then "" :: split_on sep rest
      else match split_on sep rest with
           | f :: fs => String c f :: fs
           | [] => [String c ""]
           end
  end.

(** White space of the C locale: space, and the characters 9 to 13. *)
Definition is_space (c : ascii) : bool :=
  let n := nat_of_ascii c in
  Nat.eqb n 32 || (Nat.leb 9 n && Nat.leb n 13).

(** The part of [s] before its first white space. *)
Fixpoint before_space (s : string) : string :=
  match s with
  | "" => ""
  | String c rest => if is_space c then "" else String c (before_space rest)
  end.

(** The numbers between the dots, put together. *)
Definition numbers (s : string) : option Z :=
  match map c_number (split_on "." s) with
  | [Some a] =>
      if a <=? 4294967295 then Some a else None
  | [Some a; Some b] =>
      if (a <=? 255) && (b <=? 16777215) then Some (a * 2 ^ 24 + b) else None
  | [Some a; Some b; Some c] =>
      if (a <=? 255) && (b <=? 255) && (c <=? 65535)
      then Some (a * 2 ^ 24 + b * 2 ^ 16 + c) else None
  | [Some a; Some b; Some c; Some d] =>
      if (a <=? 255) && (b <=? 255) && (c <=? 255) && (d <=? 255)
      then Some (a * 2 ^ 24 + b * 2 ^ 16 + c * 2 ^ 8 + d) else None
  | _ => None
  end.

Definition numbers_and_dots (s : string) : option Z :=
  numbers (before_space s).

(** ** The calls as monadic operations *)

Definition set_wsa_refs (n : nat) (p : process) : process :=
  {| wsa_refs := n; libssh2_refs := libssh2_refs p;
     socket_calls := socket_calls p; open_fds := open_fds p;
     live_sessions := live_sessions p |}.

Definition set_libssh2_refs (n : nat) (p : process) : process :=
  {| wsa_refs := wsa_refs p; libssh2_refs := n;
     socket_calls := socket_calls p; open_fds := open_fds p;
     live_sessions := live_sessions p |}.

Definition record_socket (fd : Z) (p : process) : process :=
  {| wsa_refs := wsa_refs p; libssh2_refs := libssh2_refs p;
     socket_calls := S (socket_calls p);
     open_fds := if fd =? socket_invalid then open_fds p
                 else (open_fds p ++ [fd])%list;
     live_sessions := live_sessions p |}.

Definition record_session (s : Z) (p : process) : process :=
  {| wsa_refs := wsa_refs p; libssh2_refs := libssh2_refs p;
     socket_calls := socket_calls p; open_fds := open_fds p;
     live_sessions := if s =? 0 then live_sessions p
                      else (live_sessions p ++ [s])%list |}.

Definition WSAStartup : M Z :=
  emit (Call c_WSAStartup) ;;
  err <- ask r_WSAStartup ;;
  when (err =? 0) (update (fun p => set_wsa_refs (S (wsa_refs p)) p)) ;;
  ret err.

(** [WSACleanup] is followed through its reference count only.  What the
    last [WSACleanup] does to the sockets still open belongs to Windows
    and is not described: the statements about open descriptors after
    [cleanup] are made for builds without WIN32. *)
Definition WSACleanup : M unit :=
  emit (Call c_WSACleanup) ;;
  update (fun p => set_wsa_refs (Nat.pred (wsa_refs p)) p).

Definition libssh2_init (flags : Z) : M Z :=
  emit (Call (c_libssh2_init flags)) ;;
  err <- ask r_libssh2_init ;;
  when (err =? 0) (update (fun p => set_libssh2_refs (S (libssh2_refs p)) p)) ;;
  ret err.

Definition libssh2_exit : M unit :=
  emit (Call c_libssh2_exit) ;;
  update (fun p => set_libssh2_refs (Nat.pred (libssh2_refs p)) p).

Definition socket : M Z :=
  emit (Call c_socket) ;;
  n <- get socket_calls ;;
  fd <- ask (fun e => r_socket e n) ;;
  update (record_socket fd) ;;
  ret fd.

Definition inet_addr (ip : string) : M Z :=
  emit (Call (c_inet_addr ip)) ;;
  ask (fun e => inet_addr_value e ip).

Definition connect (fd addr port : Z) : M Z :=
  emit (Call (c_connect fd addr port)) ;;
  ask r_connect.

Definition setsockopt (fd : Z) : M Z :=
  emit (Call (c_setsockopt fd)) ;;
  ret 0.

Definition bind_socket (fd addr port : Z) : M Z :=
  emit (Call (c_bind fd addr port)) ;;
  ask r_bind.

Definition listen (fd backlog : Z) : M Z :=
  emit (Call (c_listen fd backlog)) ;;
  ask r_listen.

Definition libssh2_session_init : M Z :=
  emit (Call c_session_init) ;;
  s <- ask r_session_init ;;
  update (record_session s) ;;
  ret s.

Definition libssh2_session_handshake (session sock : Z) : M Z :=
  emit (Call (c_session_handshake session sock)) ;;
  ask r_session_handshake.

Definition libssh2_hostkey_hash (session : Z) : M (option string) :=
  emit (Call (c_hostkey_hash session)) ;;
  ask r_hostkey_hash.

Definition libssh2_userauth_list (session : Z) (username : string)
  : M (option string) :=
  emit (Call (c_userauth_list session username)) ;;
  ask r_userauth_list.

Definition libssh2_userauth_password (session : Z) (username password : string)
  : M Z :=
  emit (Call (c_userauth_password session username password)) ;;
  ask r_userauth_password.

Definition libssh2_userauth_publickey_fromfile
  (session : Z) (username publickey privatekey passphrase : string) : M Z :=
  emit (Call (c_userauth_publickey_fromfile
                session username publickey privatekey passphrase)) ;;
  ask r_userauth_publickey_fromfile.

(** ** The program *)

Inductive ssh_auth_type := AUTH_NONE | AUTH_PASSWORD | AUTH_PUBLICKEY.

(** The enumerators' values. *)
Definition auth_code (t : ssh_auth_type) : Z :=
  match t with
  | AUTH_NONE => 0
  | AUTH_PASSWORD => 1
  | AUTH_PUBLICKEY => 2
  end.

Definition auth_eqb (a b : ssh_auth_type) : bool :=
  auth_code a =? auth_code b.

Record ssh_tunnel_config := {
  localip : string;
  localport : Z;
  username : string;
  password : string;
  privatekeyfile : string;
  publickeyfile : string;
  passphrase : string;
  serverip : string;
  serverport : Z;
  remotehost : string;
  remoteport : Z
}.

(** [int init()]: 0 if initialisation succeeds.  The [#ifdef WIN32] blocks
    are the branches on [win32]; without WIN32 the first test is not
    compiled, and here [err] is 0 at that point. *)
Definition init : M Z :=
  w <- ask win32 ;;
  err <- (if w then WSAStartup else ret 0) ;;
  if negb (err =? 0) then
    log_error "WSAStartup failed with error: %d" ;;
    ret 1
  else
    err <- libssh2_init 0 ;;
    if negb (err =? 0) then
      log_error "libssh2 initialization failed (%d)" ;;
      ret 1
    else ret 0.

(** [void cleanup()] *)
Definition cleanup : M unit :=
  libssh2_exit ;;
  w <- ask win32 ;;
  when w WSACleanup.

(** [socket_type socket_connect(char *ip, int port)]: the socket, or -1. *)
Definition socket_connect (ip : string) (port : Z) : M Z :=
  sock <- socket ;;
  if sock =? socket_invalid then
    log_error "Failed to open socket" ;;
    ret (-1)
  else
    s_addr <- inet_addr ip ;;
    if INADDR_NONE =? s_addr then
      log_error "inet_addr error" ;;
      ret (-1)
    else
      let sin_port := htons port in
      rc <- connect sock s_addr sin_port ;;
      if negb (rc =? 0) then
        log_error "Failed to connect to %s:%d" ;;
        ret (-1)
      else ret sock.

(** [socket_type socket_listen(char *ip, int port)]: the socket, bound and
    listening, or -1. *)
Definition socket_listen (ip : string) (port : Z) : M Z :=
  listensock <- socket ;;
  if listensock =? socket_invalid then
    log_error "Failed to open socket" ;;
    ret (-1)
  else
    let sin_port := htons port in
    s_addr <- inet_addr ip ;;
    if INADDR_NONE =? s_addr then
      log_error "inet_addr" ;;
      ret (-1)
    else
      setsockopt listensock ;;
      rc <- bind_socket listensock s_addr sin_port ;;
      if -1 =? rc then
        log_error "Cannot bind to port %d" ;;
        ret (-1)
      else
        rc <- listen listensock 2 ;;
        if -1 =? rc then
          log_error "Failed to listen opened socket" ;;
          ret (-1)
        else ret listensock.

(** [LIBSSH2_SESSION *ssh_connect(...)]: the session, 0 on error. *)
Definition ssh_connect (sock : Z) (type : ssh_auth_type)
  (username password publickeypath privatekeypath passphrase : string) : M Z :=
  let auth := auth_code AUTH_NONE in
  session <- libssh2_session_init ;;
  if session =? 0 then
    log_error "Could not initialize SSH session" ;;
    ret 0
  else
    rc <- libssh2_session_handshake session sock ;;
    if negb (rc =? 0) then
      log_error ("Error when starting up SSH session: %d" ++ LF) ;;
      ret 0
    else
      fingerprint <- libssh2_hostkey_hash session ;;
      userauthlist <- libssh2_userauth_list session username ;;
      methods <- deref userauthlist ;;
      log_msg "Authentication methods: %s" ;;
      let auth :=
        if non_null (strstr methods "password")
        then Z.lor auth (auth_code AUTH_PASSWORD) else auth in
      let auth :=
        if non_null (strstr methods "publickey")
        then Z.lor auth (auth_code AUTH_PUBLICKEY) else auth in
      if negb (Z.land auth (auth_code AUTH_PASSWORD) =? 0)
         && auth_eqb type AUTH_PASSWORD then
        rc <- libssh2_userauth_password session username password ;;
        if negb (rc =? 0) then
          log_error "Authentication by password failed" ;;
          ret 0
        else
          log_msg "Authentication by password succeeded." ;;
          ret session
      else if negb (Z.land auth (auth_code AUTH_PUBLICKEY) =? 0)
              && auth_eqb type AUTH_PUBLICKEY then
        rc <- libssh2_userauth_publickey_fromfile
                session username publickeypath privatekeypath passphrase ;;
        if negb (rc =? 0) then
          log_error "Authentication by key failed" ;;
          ret 0
        else
          log_msg "Authentication by key succeeded." ;;
          ret session
      else
        log_error "No supported authentication methods found." ;;
        ret 0.

Definition config : ssh_tunnel_config :=
  {| localip := "127.0.0.1";
     localport := 27040;
     username := "dmitry";
     password := "";
     privatekeyfile := "/Users/dmitry/.ssh/ubuntik";
     publickeyfile := "/Users/dmitry/.ssh/ubuntik.pub";
     passphrase := "";
     serverip := "198.61.166.171";
     serverport := 22;
     remotehost := "localhost";
     remoteport := 27017 |}.

(** [int main(int argc, char *argv[])]: the exit code. *)
Definition main : M Z :=
  err <- init ;;
  if negb (err =? 0) then ret 1
  else
    log_msg "Connecting to %s..." ;;
    ssh_socket <- socket_connect (serverip config) (serverport config) ;;
    if ssh_socket =? -1 then ret 1
    else
      session <- ssh_connect ssh_socket AUTH_PUBLICKEY
                   (username config) (password config)
                   (publickeyfile config) (privatekeyfile config)
                   (passphrase config) ;;
      if session =? 0 then ret 1
      else
        local_socket <- socket_listen (localip config) (localport config) ;;
        if local_socket =? -1 then ret 1
        else
          log_msg "Waiting for TCP connection on %s:%d..." ;;
          cleanup ;;
          ret 0.

(** * Vocabulary of the properties *)

(** ** Reading the events of a run *)

Definition is_credential_call (c : call) : bool :=
  match c with
  | c_userauth_password _ _ _ => true
  | c_userauth_publickey_fromfile _ _ _ _ _ => true
  | _ => false
  end.

Definition is_credential (ev : event) : bool :=
  match ev with
  | Call c => is_credential_call c
  | Log _ _ => false
  end.

(** The credential submissions among the events, in order. *)
Definition credentials (evs : list event) : list event :=
  filter is_credential evs.

Definition logged_error (msg : string) (evs : list event) : Prop :=
  In (Log LogError msg) evs.

(** The error kinds of the design, told apart by the message
    [ssh_connect] logs before it returns 0. *)
Definition AuthMethodUnsupported : string :=
  "No supported authentication methods found.".

Definition AuthFailed (t : ssh_auth_type) : string :=
  match t with
  | AUTH_PASSWORD => "Authentication by password failed"
  | AUTH_PUBLICKEY => "Authentication by key failed"
  | AUTH_NONE => ""
  end.

(** The name of a method on the wire. *)
Definition method_name (t : ssh_auth_type) : string :=
  match t with
  | AUTH_NONE => "none"
  | AUTH_PASSWORD => "password"
  | AUTH_PUBLICKEY => "publickey"
  end.

(** The gateway's answer is a comma separated list of method names:
    these are the methods it advertises. *)
Definition advertised (methods : string) : list string :=
  split_on "," methods.

Definition with_hostkey_hash (fp : option string) (e : environment)
  : environment :=
  {| win32 := win32 e;
     r_WSAStartup := r_WSAStartup e;
     r_libssh2_init := r_libssh2_init e;
     r_socket := r_socket e;
     r_inet_addr := r_inet_addr e;
     r_connect := r_connect e;
     r_bind := r_bind e;
     r_listen := r_listen e;
     r_session_init := r_session_init e;
     r_session_handshake := r_session_handshake e;
     r_hostkey_hash := fp;
     r_userauth_list := r_userauth_list e;
     r_userauth_password := r_userauth_password e;
     r_userauth_publickey_fromfile := r_userauth_publickey_fromfile e |}.

(** ** Environments used as concrete runs *)

(** Everything works; descriptors are handed out from 3 on. *)
Definition cooperative (methods : string) : environment :=
  {| win32 := false;
     r_WSAStartup := 0;
     r_libssh2_init := 0;
     r_socket := fun n => 3 + Z.of_nat n;
     r_inet_addr := numbers_and_dots;
     r_connect := 0;
     r_bind := 0;
     r_listen := 0;
     r_session_init := 4096;
     r_session_handshake := 0;
     r_hostkey_hash := Some "0123456789abcdefghij";
     r_userauth_list := Some methods;
     r_userauth_password := 0;
     r_userauth_publickey_fromfile := 0 |}.

(** As [cooperative], but the gateway refuses every credential
    (LIBSSH2_ERROR_AUTHENTICATION_FAILED is -18). *)
Definition refusing (methods : string) : environment :=
  {| win32 := false;
     r_WSAStartup := 0;
     r_libssh2_init := 0;
     r_socket := fun n => 3 + Z.of_nat n;
     r_inet_addr := numbers_and_dots;
     r_connect := 0;
     r_bind := 0;
     r_listen := 0;
     r_session_init := 4096;
     r_session_handshake := 0;
     r_hostkey_hash := Some "0123456789abcdefghij";
     r_userauth_list := Some methods;
     r_userauth_password := -18;
     r_userauth_publickey_fromfile := -18 |}.

(** As [cooperative], but [libssh2_userauth_list] returns NULL. *)
Definition no_list : environment :=
  {| win32 := false;
     r_WSAStartup := 0;
     r_libssh2_init := 0;
     r_socket := fun n => 3 + Z.of_nat n;
     r_inet_addr := numbers_and_dots;
     r_connect := 0;
     r_bind := 0;
     r_listen := 0;
     r_session_init := 4096;
     r_session_handshake := 0;
     r_hostkey_hash := Some "0123456789abcdefghij";
     r_userauth_list := None;
     r_userauth_password := 0;
     r_userauth_publickey_fromfile := 0 |}.

(** As [cooperative], but nobody answers at the gateway's address. *)
Definition unreachable : environment :=
  {| win32 := false;
     r_WSAStartup := 0;
     r_libssh2_init := 0;
     r_socket := fun n => 3 + Z.of_nat n;
     r_inet_addr := numbers_and_dots;
     r_connect := -1;
     r_bind := 0;
     r_listen := 0;
     r_session_init := 4096;
     r_session_handshake := 0;
     r_hostkey_hash := Some "0123456789abcdefghij";
     r_userauth_list := Some "publickey,password";
     r_userauth_password := 0;
     r_userauth_publickey_fromfile := 0 |}.

(** ** [ssh_connect] *)

(** The credential submission that goes with a method. *)
Definition attempt (t : ssh_auth_type) (session : Z)
  (user pw pub priv pass : string) : option call :=
  match t with
  | AUTH_NONE => None
  | AUTH_PASSWORD => Some (c_userauth_password session user pw)
  | AUTH_PUBLICKEY =>
      Some (c_userauth_publickey_fromfile session user pub priv pass)
  end.

(** The gateway's verdict on it. *)
Definition verdict (e : environment) (t : ssh_auth_type) : Z :=
  match t with
  | AUTH_NONE => 0
  | AUTH_PASSWORD => r_userauth_password e
  | AUTH_PUBLICKEY => r_userauth_publickey_fromfile e
  end.

(** ** Reading a run of [main] *)

Definition is_libssh2_exit (ev : event) : bool :=
  match ev with
  | Call c_libssh2_exit => true
  | _ => false
  end.

(** [cleanup] is the only function that calls [libssh2_exit], once per
    invocation: counting these calls counts the invocations. *)
Definition cleanup_calls (evs : list event) : nat :=
  List.length (filter is_libssh2_exit evs).

(** What [socket_listen] does to the outside after creating its socket. *)
Definition is_listener_call (ev : event) : bool :=
  match ev with
  | Call (c_setsockopt _) => true
  | Call (c_bind _ _ _) => true
  | Call (c_listen _ _) => true
  | _ => false
  end.

Definition is_socket_call (ev : event) : bool :=
  match ev with
  | Call c_socket => true
  | _ => false
  end.

Definition val_of {A} (default : A) (o : outcome A) : A :=
  match o with
  | Val a => a
  | Undefined => default
  end.

(** The four setup steps of [main], each run from the state the previous
    one left behind. *)
Definition stage_init (e : environment) : result Z :=
  init e boot.

Definition stage_connect (e : environment) : result Z :=
  socket_connect (serverip config) (serverport config) e
    (after (stage_init e)).

Definition stage_session (e : environment) : result Z :=
  ssh_connect (val_of (-1) (value (stage_connect e))) AUTH_PUBLICKEY
    (username config) (password config)
    (publickeyfile config) (privatekeyfile config) (passphrase config)
    e (after (stage_connect e)).

Definition stage_listen (e : environment) : result Z :=
  socket_listen (localip config) (localport config) e
    (after (stage_session e)).

Inductive setup :=
| BootstrapFailed
| ConnectorFailed
| SessionFailed
| ListenerFailed
| SetupComplete
| SetupUndefined.

(** How far the setup gets, by the values the steps return: [init]
    non-zero, [socket_connect] and [socket_listen] -1, [ssh_connect] 0. *)
Definition setup_of (e : environment) : setup :=
  match value (stage_init e) with
  | Undefined => SetupUndefined
  | Val err =>
      if negb (err =? 0) then BootstrapFailed
      else match value (stage_connect e) with
           | Undefined => SetupUndefined
           | Val fd =>
               if fd =? -1 then ConnectorFailed
               else match value (stage_session e) with
                    | Undefined => SetupUndefined
                    | Val session =>
                        if session =? 0 then SessionFailed
                        else match value (stage_listen e) with
                             | Undefined => SetupUndefined
                             | Val lfd =>
                                 if lfd =? -1 then ListenerFailed
                                 else SetupComplete
                             end
                    end
           end
  end.

(** [main] is the sequence of its steps: what it returns, the state it
    leaves and the events it emits, by how far the setup gets. *)
Definition main_of_stages (e : environment) : result Z :=
  let connecting :=
    (emitted (stage_init e) ++ [Log LogMsg "Connecting to %s..."])%list in
  match setup_of e with
  | BootstrapFailed =>
      mkResult (Val 1) (after (stage_init e)) (emitted (stage_init e))
  | ConnectorFailed =>
      mkResult (Val 1) (after (stage_connect e))
        (connecting ++ emitted (stage_connect e))%list
  | SessionFailed =>
      mkResult (Val 1) (after (stage_session e))
        (connecting ++ emitted (stage_connect e)
           ++ emitted (stage_session e))%list
  | ListenerFailed =>
      mkResult (Val 1) (after (stage_listen e))
        (connecting ++ emitted (stage_connect e)
           ++ emitted (stage_session e) ++ emitted (stage_listen e))%list
  | SetupComplete =>
      let bye := cleanup e (after (stage_listen e)) in
      mkResult (Val 0) (after bye)
        (connecting ++ emitted (stage_connect e)
           ++ emitted (stage_session e) ++ emitted (stage_listen e)
           ++ Log LogMsg "Waiting for TCP connection on %s:%d..."
           :: emitted bye)%list
  | SetupUndefined =>
      mkResult Undefined (after (stage_session e))
        (connecting ++ emitted (stage_connect e)
           ++ emitted (stage_session e))%list
  end.

(** ** [socket_connect]: the address *)

(** A decimal octet as the design means it: [0] to [255], written without
    a leading zero. *)
Definition is_octet (s : string) : bool :=
  match s with
  | "" => false
  | String c rest =>
      (negb (Ascii.eqb c "0") || String.eqb rest "") &&
      match digits 10 s 0 with
      | Some v => v <=? 255
      | None => false
      end
  end.

(** A dotted quad: four octets separated by dots. *)
Definition is_dotted_quad (s : string) : bool :=
  match split_on "." s with
  | [a; b; c; d] => is_octet a && is_octet b && is_octet c && is_octet d
  | _ => false
  end.

(** The address a dotted quad denotes, first byte first. *)
Definition octet_value (s : string) : option Z :=
  if is_octet s then digits 10 s 0 else None.

Definition dotted_quad_value (s : string) : option Z :=
  match map octet_value (split_on "." s) with
  | [Some a; Some b; Some c; Some d] =>
      Some (a * 2 ^ 24 + b * 2 ^ 16 + c * 2 ^ 8 + d)
  | _ => None
  end.

(** A platform whose [inet_addr] reads dotted quads as POSIX says. *)
Definition reads_dotted_quads (e : environment) : Prop :=
  forall ip v, dotted_quad_value ip = Some v -> r_inet_addr e ip = Some v.

(** The inverse of [split_on]. *)
Fixpoint join (sep : ascii) (l : list string) : string :=
  match l with
  | [] => ""
  | [a] => a
  | a :: rest => a ++ String sep (join sep rest)
  end.

(** The address step of [socket_connect] failed: its error was logged. *)
Definition resolution_failed (r : result Z) : Prop :=
  logged_error "inet_addr error" (emitted r).

(** * The byte pump of the Tunnel Relay *)

Module Relay.

(** The Tunnel Relay (section 4.5 of the design) is not in [server.c],
    whose [main] stops after [socket_listen]: there is no accept loop and
    no byte pump.  What follows is one direction of the pump as the design
    describes it.

    The source holds the bytes the client has written and the pump has not
    read yet.  The destination is the list of chunks written so far,
    oldest first. *)

(** Modelled from the spec: what the [i]-th read of a direction meets,
    "end-of-stream" aside: an "I/O error", or the number of bytes the
    transport has ready. *)
Inductive io_event :=
| IoError
| Ready (n : nat).

(** Modelled from the spec: a direction loops "until the source signals
    end-of-stream (orderly close) or an I/O error occurs". *)
Inductive ending :=
| EndOfStream
| Failed.

Section Pump.
Variable buffer_size : nat.
Variable io : nat -> io_event.

(** Modelled from the spec: a direction "reads up to a fixed buffer size
    from its source".  A read of a stream with bytes left returns at least
    one byte and at most [buffer_size]; the result is the chunk read and
    what stays in the source. *)
Definition read (ready : nat) (source : list Byte.byte)
  : list Byte.byte * list Byte.byte :=
  let n := Nat.min buffer_size (Nat.max 1 ready) in
  (firstn n source, skipn n source).

(** Modelled from the spec: the loop of one direction, which "reads up to
    a fixed buffer size from its source and writes the same bytes to its
    destination, looping until the source signals end-of-stream (orderly
    close) or an I/O error occurs".  [fuel] bounds the number of
    iterations; [None] is a loop that has not ended within it. *)
Fixpoint pump (fuel i : nat) (source : list Byte.byte)
  (written : list (list Byte.byte))
  : option (ending * list (list Byte.byte)) :=
  match fuel with
  | O => None
  | S fuel' =>
      match source with
      | [] => Some (EndOfStream, written)
      | _ :: _ =>
          match io i with
          | IoError => Some (Failed, written)
          | Ready n =>
              let (chunk, rest) := read n source in
              pump fuel' (S i) rest (written ++ [chunk])%list
          end
      end
  end.

(** Modelled from the spec: what "the destination receives", the chunks
    written taken together. *)
Definition received (written : list (list Byte.byte)) : list Byte.byte :=
  List.concat written.

(** Modelled from the spec: "no coalescing beyond buffer-sized chunks". *)
Definition chunk_ok (chunk : list Byte.byte) : Prop :=
  (1 <= List.length chunk <= buffer_size)%nat.
End Pump.

(** Scenario C sends ten bytes. *)
Definition ten_bytes : list Byte.byte :=
  [Byte.x30; Byte.x31; Byte.x32; Byte.x33; Byte.x34;
   Byte.x35; Byte.x36; Byte.x37; Byte.x38; Byte.x39].

End Relay.

(** * Vocabulary of the further properties *)

Definition is_error (ev : event) : bool :=
  match ev with
  | Log LogError _ => true
  | _ => false
  end.

(** The errors logged, in order. *)
Definition errors (evs : list event) : list event :=
  filter is_error evs.

Definition is_call (ev : event) : bool :=
  match ev with
  | Call _ => true
  | Log _ _ => false
  end.

(** The calls made, in order, without the log. *)
Definition calls (evs : list event) : list event :=
  filter is_call evs.

Definition with_userauth_list (methods : option string) (e : environment)
  : environment :=
  {| win32 := win32 e;
     r_WSAStartup := r_WSAStartup e;
     r_libssh2_init := r_libssh2_init e;
     r_socket := r_socket e;
     r_inet_addr := r_inet_addr e;
     r_connect := r_connect e;
     r_bind := r_bind e;
     r_listen := r_listen e;
     r_session_init := r_session_init e;
     r_session_handshake := r_session_handshake e;
     r_hostkey_hash := r_hostkey_hash e;
     r_userauth_list := methods;
     r_userauth_password := r_userauth_password e;
     r_userauth_publickey_fromfile := r_userauth_publickey_fromfile e |}.

(** A Windows build in which [WSAStartup] works and [libssh2_init] answers
    [rc]. *)
Definition windows (rc : Z) : environment :=
  {| win32 := true;
     r_WSAStartup := 0;
     r_libssh2_init := rc;
     r_socket := fun n => 3 + Z.of_nat n;
     r_inet_addr := numbers_and_dots;
     r_connect := 0;
     r_bind := 0;
     r_listen := 0;
     r_session_init := 4096;
     r_session_handshake := 0;
     r_hostkey_hash := Some "0123456789abcdefghij";
     r_userauth_list := Some "publickey,password";
     r_userauth_password := 0;
     r_userauth_publickey_fromfile := 0 |}.

(** As [cooperative], but the port is taken: [bind] fails. *)
Definition port_taken : environment :=
  {| win32 := false;
     r_WSAStartup := 0;
     r_libssh2_init := 0;
     r_socket := fun n => 3 + Z.of_nat n;
     r_inet_addr := numbers_and_dots;
     r_connect := 0;
     r_bind := -1;
     r_listen := 0;
     r_session_init := 4096;
     r_session_handshake := 0;
     r_hostkey_hash := Some "0123456789abcdefghij";
     r_userauth_list := Some "publickey,password";
     r_userauth_password := 0;
     r_userauth_publickey_fromfile := 0 |}.

(** * Proofs *)

(** ** Unfolding a run *)

Ltac unfold_run :=
  cbv beta iota zeta delta
    [ssh_connect socket_connect socket_listen init cleanup main
     bind ret emit ask get update undefined deref when log_error log_msg
     WSAStartup WSACleanup libssh2_init libssh2_exit socket inet_addr connect
     setsockopt bind_socket listen libssh2_session_init
     libssh2_session_handshake libssh2_hostkey_hash libssh2_userauth_list
     libssh2_userauth_password libssh2_userauth_publickey_fromfile
     value after emitted app].

(** One test of the program on a value the environment chose. *)
Ltac branch :=
  match goal with
  | H : r_userauth_list ?e = _ |- context [r_userauth_list ?e] => rewrite H
  | H : strstr ?s ?n = _ |- context [strstr ?s ?n] => rewrite H
  | |- context [r_userauth_list ?e] => destruct (r_userauth_list e) eqn:?
  | |- context [strstr ?s ?n] => destruct (strstr s n) eqn:?
  | |- context [if ?b then _ else _] =>
      let b' := eval cbn in b in
      match b' with
      | true => change b with true
      | false => change b with false
      | _ => destruct b eqn:?
      end
  end.

(** The tests the program made, as facts about the integers tested. *)
Ltac tests :=
  repeat match goal with
         | H : negb _ = true |- _ => apply negb_true_iff in H
         | H : negb _ = false |- _ => apply negb_false_iff in H
         | H : (_ =? _) = true |- _ => apply Z.eqb_eq in H
         | H : (_ =? _) = false |- _ => apply Z.eqb_neq in H
         end;
  unfold socket_invalid in *.

Ltac run_all := unfold_run; repeat (branch; unfold_run).

(** ** [strstr] against the advertised list *)

Lemma split_on_cons (sep : ascii) (s : string) :
  exists f fs, split_on sep s = f :: fs /\ prefix f s = true.
Proof.
  induction s as [|c rest IH]; cbn [split_on].
  - exists "", []. split; reflexivity.
  - destruct (Ascii.eqb c sep).
    + exists "", (split_on sep rest). split; reflexivity.
    + destruct IH as (f & fs & -> & Hpre).
      exists (String c f), fs. split; [reflexivity|].
      cbn [prefix]. destruct (ascii_dec c c); [assumption | congruence].
Qed.

Lemma prefix_strstr (hay needle : string) :
  prefix needle hay = true -> strstr hay needle = Some hay.
Proof.
  intros H. destruct hay; cbn [strstr]; rewrite H; reflexivity.
Qed.

Lemma strstr_tail (c : ascii) (hay needle : string) :
  strstr hay needle <> None -> strstr (String c hay) needle <> None.
Proof.
  intros H. cbn [strstr].
  destruct (prefix needle (String c hay)); [discriminate | exact H].
Qed.

(** A method the gateway lists is found by the substring test; the
    converse fails, see [password_substring] below. *)
Lemma advertised_strstr (methods name : string) :
  In name (advertised methods) -> strstr methods name <> None.
Proof.
  unfold advertised.
  induction methods as [|c rest IH]; cbn [split_on].
  - intros [<- | []]. discriminate.
  - destruct (Ascii.eqb c ",").
    + intros [<- | Hin].
      * rewrite prefix_strstr by reflexivity. discriminate.
      * apply strstr_tail, IH, Hin.
    + destruct (split_on_cons "," rest) as (f & fs & Heq & Hpre).
      rewrite Heq in *. intros [<- | Hin].
      * rewrite prefix_strstr; [discriminate|].
        cbn [prefix]. destruct (ascii_dec c c); [assumption | congruence].
      * apply strstr_tail, IH. right. exact Hin.
Qed.

Example password_substring :
  strstr "publickey,password@example.com" "password"
    = Some "password@example.com" /\
  ~ In "password" (advertised "publickey,password@example.com").
Proof.
  split; [reflexivity|].
  cbn. intros [H | [H | []]]; discriminate H.
Qed.

(** ** [ssh_connect] *)

Section SshConnect.
Variables (e : environment) (p : process) (sock : Z).
Variables (user pw pub priv pass : string).

(** Whatever happens, the two credential calls are never both made and
    none is made twice; the one made is the one for the selected type. *)
Lemma ssh_connect_credentials (t : ssh_auth_type) :
  let r := ssh_connect sock t user pw pub priv pass e p in
  credentials (emitted r) = [] \/
  exists c, attempt t (r_session_init e) user pw pub priv pass = Some c /\
            credentials (emitted r) = [Call c].
Proof.
  destruct t; run_all;
    solve [ left; reflexivity | right; eexists; split; reflexivity ].
Qed.

(** A selected type the method list does not mention, in the sense of
    the [strstr] test, ends in the last [else]. *)
Lemma ssh_connect_not_offered (t : ssh_auth_type) (methods : string) :
  r_userauth_list e = Some methods ->
  strstr methods (method_name t) = None ->
  t <> AUTH_NONE ->
  let r := ssh_connect sock t user pw pub priv pass e p in
  value r = Val 0 /\
  credentials (emitted r) = [] /\
  (r_session_init e <> 0 -> r_session_handshake e = 0 ->
   emitted r =
     [Call c_session_init;
      Call (c_session_handshake (r_session_init e) sock);
      Call (c_hostkey_hash (r_session_init e));
      Call (c_userauth_list (r_session_init e) user);
      Log LogMsg "Authentication methods: %s";
      Log LogError AuthMethodUnsupported]).
Proof.
  intros Hl Hs Ht. destruct t; [congruence| |]; cbn [method_name] in Hs.
  all: run_all; tests; repeat split; try reflexivity; congruence.
Qed.
End SshConnect.

(** What the [strstr] test does achieve: when the name of the selected
    method (password or publickey) occurs nowhere in the method list the
    gateway returned, the method is not advertised, [ssh_connect] returns
    0 and submits no password and no public key; if the call got as far
    as asking for the list, the error it logs is [AuthMethodUnsupported],
    right after the list was read. *)
Theorem ssh_connect_unsupported_method
  (e : environment) (p : process) (sock : Z) (t : ssh_auth_type)
  (user pw pub priv pass methods : string) :
  t = AUTH_PASSWORD \/ t = AUTH_PUBLICKEY ->
  r_userauth_list e = Some methods ->
  strstr methods (method_name t) = None ->
  let r := ssh_connect sock t user pw pub priv pass e p in
  ~ In (method_name t) (advertised methods) /\
  value r = Val 0 /\
  credentials (emitted r) = [] /\
  (r_session_init e <> 0 -> r_session_handshake e = 0 ->
   emitted r =
     [Call c_session_init;
      Call (c_session_handshake (r_session_init e) sock);
      Call (c_hostkey_hash (r_session_init e));
      Call (c_userauth_list (r_session_init e) user);
      Log LogMsg "Authentication methods: %s";
      Log LogError AuthMethodUnsupported]).
Proof.
  intros Ht Hl Hs r. split.
  - intros Hin. apply advertised_strstr in Hin. congruence.
  - apply ssh_connect_not_offered with (methods := methods); try assumption.
    destruct Ht; subst t; discriminate.
Qed.

(** Scenario B: the gateway advertises password only, the caller selected
    the public key. *)
Lemma ssh_connect_unsupported_method_scenario_B :
  let r := ssh_connect 3 AUTH_PUBLICKEY "dmitry" ""
             "/Users/dmitry/.ssh/ubuntik.pub" "/Users/dmitry/.ssh/ubuntik" ""
             (cooperative "password") boot in
  ~ In "publickey" (advertised "password") /\
  value r = Val 0 /\
  credentials (emitted r) = [] /\
  logged_error AuthMethodUnsupported (emitted r).
Proof.
  destruct (ssh_connect_unsupported_method
              (cooperative "password") boot 3 AUTH_PUBLICKEY "dmitry" ""
              "/Users/dmitry/.ssh/ubuntik.pub" "/Users/dmitry/.ssh/ubuntik" ""
              "password")
    as (Hnot & Hval & Hcred & Hlog).
  - right. reflexivity.
  - reflexivity.
  - reflexivity.
  - repeat split; try assumption.
    unfold logged_error. rewrite Hlog.
    + cbn. tauto.
    + cbn. lia.
    + reflexivity.
Defined.

(** C1: the code at the failing input.  The gateway lists [publickey] and
    a private method [password@example.com]; [password] is not among the
    methods it advertises.  The code looks for the name with [strstr],
    finds it inside the other name, and takes the password for available:
    a caller who selected the password has it submitted to a gateway that
    never offered the method, and the call ends with [AuthFailed], not
    with [AuthMethodUnsupported]. *)
Theorem ssh_connect_submits_unadvertised_password :
  let methods := "publickey,password@example.com" in
  let r := ssh_connect 3 AUTH_PASSWORD "dmitry" "secret" "" "" ""
             (refusing methods) boot in
  ~ In (method_name AUTH_PASSWORD) (advertised methods) /\
  credentials (emitted r) =
    [Call (c_userauth_password 4096 "dmitry" "secret")] /\
  value r = Val 0 /\
  errors (emitted r) = [Log LogError (AuthFailed AUTH_PASSWORD)] /\
  ~ logged_error AuthMethodUnsupported (emitted r).
Proof.
  cbv zeta. split; [exact (proj2 password_substring)|].
  split; [reflexivity|]. split; [reflexivity|]. split; [reflexivity|].
  unfold logged_error. cbn.
  intros H. repeat destruct H as [H | H]; try discriminate H. exact H.
Qed.

(** C5: a call makes at most one credential submission, the one for the
    selected type; when the gateway rejects it the call returns 0 at once,
    having logged [AuthFailed] for that type as its last action: nothing
    is retried and no other method is tried. *)
Theorem ssh_connect_one_attempt
  (e : environment) (p : process) (sock : Z) (t : ssh_auth_type)
  (user pw pub priv pass : string) :
  let r := ssh_connect sock t user pw pub priv pass e p in
  (List.length (credentials (emitted r)) <= 1)%nat /\
  forall c, In (Call c) (emitted r) -> is_credential_call c = true ->
    attempt t (r_session_init e) user pw pub priv pass = Some c /\
    credentials (emitted r) = [Call c] /\
    (verdict e t <> 0 ->
     value r = Val 0 /\
     exists before,
       emitted r = (before ++ [Call c; Log LogError (AuthFailed t)])%list /\
       credentials before = []).
Proof.
  destruct t; run_all; tests; cbn [verdict attempt AuthFailed].
  all: split; [cbn; lia|].
  all: intros c Hin Hc; cbn in Hin.
  all: repeat destruct Hin as [Hin | Hin]; try discriminate Hin;
       try contradiction.
  all: try (injection Hin as <-; discriminate Hc).
  all: injection Hin as <-.
  all: repeat split; try reflexivity; try congruence.
  all: exists [Call c_session_init;
            Call (c_session_handshake (r_session_init e) sock);
            Call (c_hostkey_hash (r_session_init e));
            Call (c_userauth_list (r_session_init e) user);
            Log LogMsg "Authentication methods: %s"];
    split; reflexivity.
Qed.

(** C9: the host key fingerprint the handshake yields has no influence:
    two runs of [ssh_connect] in environments that differ only in it have
    the same result, the same final resources and the same events. *)
Theorem ssh_connect_ignores_fingerprint
  (e : environment) (p : process) (sock : Z) (t : ssh_auth_type)
  (user pw pub priv pass : string) (fp1 fp2 : option string) :
  ssh_connect sock t user pw pub priv pass (with_hostkey_hash fp1 e) p =
  ssh_connect sock t user pw pub priv pass (with_hostkey_hash fp2 e) p.
Proof.
  assert (Hinit : forall fp, r_session_init (with_hostkey_hash fp e)
                               = r_session_init e) by reflexivity.
  assert (Hhs : forall fp, r_session_handshake (with_hostkey_hash fp e)
                             = r_session_handshake e) by reflexivity.
  assert (Hlist : forall fp, r_userauth_list (with_hostkey_hash fp e)
                               = r_userauth_list e) by reflexivity.
  assert (Hpw : forall fp, r_userauth_password (with_hostkey_hash fp e)
                             = r_userauth_password e) by reflexivity.
  assert (Hkey : forall fp,
             r_userauth_publickey_fromfile (with_hostkey_hash fp e)
             = r_userauth_publickey_fromfile e) by reflexivity.
  destruct t; unfold_run;
    repeat (rewrite ?Hinit, ?Hhs, ?Hlist, ?Hpw, ?Hkey; branch; unfold_run);
    reflexivity.
Qed.

(** The method list is read without a NULL check. *)
Example ssh_connect_null_list :
  value (ssh_connect 3 AUTH_PUBLICKEY "dmitry" "" "" "" "" no_list boot)
  = Undefined.
Proof. reflexivity. Qed.

(** Scenario A: the gateway advertises password and publickey, the caller
    selected the public key and the gateway accepts it. *)
Example ssh_connect_scenario_A :
  let r := ssh_connect 3 AUTH_PUBLICKEY "dmitry" ""
             "/Users/dmitry/.ssh/ubuntik.pub" "/Users/dmitry/.ssh/ubuntik" ""
             (cooperative "password,publickey") boot in
  value r = Val 4096 /\
  credentials (emitted r) =
    [Call (c_userauth_publickey_fromfile 4096 "dmitry"
             "/Users/dmitry/.ssh/ubuntik.pub" "/Users/dmitry/.ssh/ubuntik" "")].
Proof. split; reflexivity. Qed.

(** With [AUTH_NONE] selected and a method list returned, whatever the
    list, [ssh_connect] returns 0 and submits no credential. *)
Theorem ssh_connect_AUTH_NONE
  (e : environment) (p : process) (sock : Z)
  (user pw pub priv pass methods : string) :
  r_userauth_list e = Some methods ->
  let r := ssh_connect sock AUTH_NONE user pw pub priv pass e p in
  value r = Val 0 /\ credentials (emitted r) = [].
Proof.
  intros Hl. run_all; split; reflexivity.
Qed.

Lemma ssh_connect_AUTH_NONE_witness :
  let r := ssh_connect 3 AUTH_NONE "dmitry" "" "" "" ""
             (cooperative "publickey,password") boot in
  value r = Val 0 /\ credentials (emitted r) = [].
Proof.
  apply (ssh_connect_AUTH_NONE (cooperative "publickey,password") boot 3
           "dmitry" "" "" "" "" "publickey,password").
  reflexivity.
Defined.

(** C10: the code at the failing input.  [AUTH_NONE] is selected, the
    handshake succeeds and [libssh2_userauth_list] returns NULL, as it
    does on an error and when the gateway accepts the user without
    authentication.  The code reads the list without a NULL check: the
    call does not return 0, its behaviour is undefined.  No credential
    has been submitted. *)
Theorem ssh_connect_AUTH_NONE_null_list :
  let r := ssh_connect 3 AUTH_NONE "dmitry" "" "" "" "" no_list boot in
  r_userauth_list no_list = None /\
  value r = Undefined /\
  value r <> Val 0 /\
  credentials (emitted r) = [].
Proof. cbv zeta. repeat split. discriminate. Qed.

(** ** [main] *)

(** Only [ssh_connect] can go wrong. *)
Lemma init_defined (e : environment) (p : process) :
  value (init e p) <> Undefined.
Proof. run_all; discriminate. Qed.

Lemma socket_connect_defined (ip : string) (port : Z)
  (e : environment) (p : process) :
  value (socket_connect ip port e p) <> Undefined.
Proof. run_all; discriminate. Qed.

Lemma socket_listen_defined (ip : string) (port : Z)
  (e : environment) (p : process) :
  value (socket_listen ip port e p) <> Undefined.
Proof. run_all; discriminate. Qed.

Lemma cleanup_defined (e : environment) (p : process) :
  value (cleanup e p) = Val tt.
Proof. unfold_run. destruct (win32 e); reflexivity. Qed.

Lemma main_stages (e : environment) :
  main e boot = main_of_stages e.
Proof.
  unfold main_of_stages, setup_of.
  generalize (cleanup_defined e (after (stage_listen e))).
  generalize (socket_listen_defined (localip config) (localport config) e
                (after (stage_session e))).
  generalize (socket_connect_defined (serverip config) (serverport config) e
                (after (stage_init e))).
  generalize (init_defined e boot).
  unfold stage_listen, stage_session, stage_connect, stage_init, main.
  cbv beta iota zeta delta [bind ret log_msg emit val_of value after emitted].
  destruct (init e boot) as [[err|] p1 evs1]; [intros _|congruence].
  destruct (negb (err =? 0)); [now rewrite app_nil_r|].
  destruct (socket_connect _ _ e p1) as [[fd|] p2 evs2];
    [intros _|congruence].
  destruct (fd =? -1).
  { cbn. now rewrite app_nil_r, <- app_assoc. }
  destruct (ssh_connect fd _ _ _ _ _ _ e p2) as [[session|] p3 evs3].
  2: { cbn. now rewrite <- app_assoc. }
  destruct (session =? 0).
  { cbn. now rewrite app_nil_r, <- app_assoc. }
  destruct (socket_listen _ _ e p3) as [[lfd|] p4 evs4];
    [intros _|congruence].
  destruct (lfd =? -1).
  { cbn. now rewrite app_nil_r, <- app_assoc. }
  destruct (cleanup e p4) as [[[]|] p5 evs5]; [|discriminate].
  intros _. cbn. now rewrite app_nil_r, <- app_assoc.
Qed.

(** *** What each step leaves behind *)

Ltac footprint :=
  run_all; tests; cbn;
  repeat match goal with
         | |- _ /\ _ => split
         | |- _ -> _ => intro
         | H : Val _ = Val _ |- _ => injection H as H
         end;
  try reflexivity; try congruence; try lia; auto 12.

Lemma init_footprint (e : environment) :
  let r := init e boot in
  (value r = Val 0 \/ value r = Val 1) /\
  (value r = Val 0 ->
   after r = {| wsa_refs := if win32 e then 1 else 0; libssh2_refs := 1;
                socket_calls := 0; open_fds := []; live_sessions := [] |}) /\
  socket_calls (after r) = 0%nat /\
  filter is_listener_call (emitted r) = [] /\
  filter is_socket_call (emitted r) = [] /\
  cleanup_calls (emitted r) = 0%nat.
Proof. footprint. Qed.

Lemma socket_connect_footprint (ip : string) (port : Z)
  (e : environment) (p : process) :
  let r := socket_connect ip port e p in
  let fd := r_socket e (socket_calls p) in
  after r = record_socket fd p /\
  (value r = Val (-1) \/ value r = Val fd /\ fd <> -1) /\
  (value r = Val (-1) ->
   logged_error "Failed to open socket" (emitted r) \/
   logged_error "inet_addr error" (emitted r) \/
   logged_error "Failed to connect to %s:%d" (emitted r)) /\
  filter is_listener_call (emitted r) = [] /\
  filter is_socket_call (emitted r) = [Call c_socket] /\
  cleanup_calls (emitted r) = 0%nat.
Proof. unfold logged_error. footprint. Qed.

Lemma ssh_connect_footprint (sock : Z) (t : ssh_auth_type)
  (user pw pub priv pass : string) (e : environment) (p : process) :
  let r := ssh_connect sock t user pw pub priv pass e p in
  after r = record_session (r_session_init e) p /\
  (value r = Undefined \/ value r = Val 0 \/
   value r = Val (r_session_init e) /\ r_session_init e <> 0) /\
  filter is_listener_call (emitted r) = [] /\
  filter is_socket_call (emitted r) = [] /\
  cleanup_calls (emitted r) = 0%nat.
Proof. destruct t; footprint. Qed.

Lemma socket_listen_footprint (ip : string) (port : Z)
  (e : environment) (p : process) :
  let r := socket_listen ip port e p in
  let fd := r_socket e (socket_calls p) in
  after r = record_socket fd p /\
  (value r = Val (-1) \/ value r = Val fd /\ fd <> -1) /\
  cleanup_calls (emitted r) = 0%nat.
Proof. footprint. Qed.

Lemma cleanup_footprint (e : environment) (p : process) :
  let r := cleanup e p in
  let p' := set_libssh2_refs (Nat.pred (libssh2_refs p)) p in
  after r = (if win32 e then set_wsa_refs (Nat.pred (wsa_refs p')) p' else p')
  /\ cleanup_calls (emitted r) = 1%nat.
Proof. footprint. Qed.

(** *** How far the setup got, read backwards *)

Lemma setup_of_inv (e : environment) :
  match setup_of e with
  | BootstrapFailed => value (stage_init e) = Val 1
  | ConnectorFailed =>
      value (stage_init e) = Val 0 /\ value (stage_connect e) = Val (-1)
  | SessionFailed =>
      value (stage_init e) = Val 0 /\
      value (stage_connect e) = Val (r_socket e 0) /\ r_socket e 0 <> -1 /\
      value (stage_session e) = Val 0
  | ListenerFailed =>
      value (stage_init e) = Val 0 /\
      value (stage_connect e) = Val (r_socket e 0) /\ r_socket e 0 <> -1 /\
      value (stage_session e) = Val (r_session_init e) /\
      r_session_init e <> 0 /\
      value (stage_listen e) = Val (-1)
  | SetupComplete =>
      value (stage_init e) = Val 0 /\
      value (stage_connect e) = Val (r_socket e 0) /\ r_socket e 0 <> -1 /\
      value (stage_session e) = Val (r_session_init e) /\
      r_session_init e <> 0 /\
      value (stage_listen e) = Val (r_socket e 1) /\ r_socket e 1 <> -1
  | SetupUndefined =>
      value (stage_init e) = Val 0 /\
      value (stage_connect e) = Val (r_socket e 0) /\ r_socket e 0 <> -1 /\
      value (stage_session e) = Undefined
  end.
Proof.
  unfold setup_of.
  pose proof (init_footprint e) as (Hi & _ & Hcalls & _).
  fold (stage_init e) in Hi, Hcalls.
  destruct Hi as [Hi | Hi]; rewrite Hi; cbn [negb Z.eqb]; [|reflexivity].
  pose proof (socket_connect_footprint (serverip config) (serverport config)
                e (after (stage_init e))) as (Hp2 & Hc & _).
  fold (stage_connect e) in Hp2, Hc. rewrite Hcalls in Hp2, Hc.
  destruct Hc as [Hc | [Hc Hfd]]; rewrite Hc; [now split|].
  apply Z.eqb_neq in Hfd as Hfd'. rewrite Hfd'.
  pose proof (ssh_connect_footprint (r_socket e 0) AUTH_PUBLICKEY
                (username config) (password config)
                (publickeyfile config) (privatekeyfile config)
                (passphrase config) e (after (stage_connect e)))
    as (Hp3 & Hs & _).
  assert (Hstage : stage_session e =
            ssh_connect (r_socket e 0) AUTH_PUBLICKEY
              (username config) (password config)
              (publickeyfile config) (privatekeyfile config)
              (passphrase config) e (after (stage_connect e))).
  { unfold stage_session. now rewrite Hc. }
  rewrite <- Hstage in Hp3, Hs.
  destruct Hs as [Hs | [Hs | [Hs Hsession]]]; rewrite Hs; [now auto | now auto |].
  apply Z.eqb_neq in Hsession as Hsession'. rewrite Hsession'.
  pose proof (socket_listen_footprint (localip config) (localport config)
                e (after (stage_session e))) as (_ & Hl & _).
  fold (stage_listen e) in Hl.
  rewrite Hp3, Hp2 in Hl.
  cbn [record_session record_socket socket_calls] in Hl. rewrite Hcalls in Hl.
  destruct Hl as [Hl | [Hl Hlfd]]; rewrite Hl;
    [rewrite Z.eqb_refl; now auto 10|].
  apply Z.eqb_neq in Hlfd as Hlfd'. rewrite Hlfd'. now auto 10.
Qed.

(** *** The claims about [main] *)

(** C6: the exit code of [main] is 0 when all four setup steps succeed and
    1 when [init], [socket_connect], [ssh_connect] or [socket_listen]
    fails; the only other runs are those stopped inside [ssh_connect] by
    a NULL method list. *)
Theorem main_exit_code (e : environment) :
  value (main e boot) =
    match setup_of e with
    | SetupComplete => Val 0
    | BootstrapFailed | ConnectorFailed | SessionFailed | ListenerFailed =>
        Val 1
    | SetupUndefined => Undefined
    end.
Proof.
  rewrite main_stages. unfold main_of_stages.
  destruct (setup_of e); reflexivity.
Qed.

(** [cleanup] runs once when the setup completes and not at all on the
    four early returns. *)
Lemma main_cleanup_calls (e : environment) :
  cleanup_calls (emitted (main e boot)) =
    match setup_of e with
    | SetupComplete => 1%nat
    | _ => 0%nat
    end.
Proof.
  pose proof (init_footprint e) as (_ & _ & _ & _ & _ & Hi).
  pose proof (socket_connect_footprint (serverip config) (serverport config)
                e (after (stage_init e))) as (_ & _ & _ & _ & _ & Hc).
  pose proof (ssh_connect_footprint
                (val_of (-1) (value (stage_connect e))) AUTH_PUBLICKEY
                (username config) (password config)
                (publickeyfile config) (privatekeyfile config)
                (passphrase config) e (after (stage_connect e)))
    as (_ & _ & _ & _ & Hs).
  pose proof (socket_listen_footprint (localip config) (localport config)
                e (after (stage_session e))) as (_ & _ & Hl).
  pose proof (cleanup_footprint e (after (stage_listen e))) as (_ & Hbye).
  fold (stage_init e) in Hi. fold (stage_connect e) in Hc.
  fold (stage_session e) in Hs. fold (stage_listen e) in Hl.
  unfold cleanup_calls in *.
  rewrite main_stages. unfold main_of_stages.
  destruct (setup_of e); cbn [emitted];
    repeat (rewrite ?filter_app, ?length_app; cbn [filter is_libssh2_exit List.length]);
    lia.
Qed.

(** C3: the code at the failing input.  [init] succeeds, nobody answers at
    the gateway's address: [main] returns 1 from the early return after
    [socket_connect] and [cleanup] has not run, so libssh2 is still
    initialised when the process exits. *)
Theorem main_early_return_skips_cleanup :
  let r := main unreachable boot in
  value (init unreachable boot) = Val 0 /\
  value r = Val 1 /\
  cleanup_calls (emitted r) = 0%nat /\
  libssh2_refs (after r) = 1%nat.
Proof. vm_compute. repeat split. Qed.

(** The state in which [main] leaves a process whose setup completed. *)
Lemma main_complete_state (e : environment) :
  setup_of e = SetupComplete ->
  let p := after (main e boot) in
  wsa_refs p = 0%nat /\ libssh2_refs p = 0%nat /\ socket_calls p = 2%nat /\
  live_sessions p = [r_session_init e] /\
  (win32 e = false -> open_fds p = [r_socket e 0; r_socket e 1]).
Proof.
  intros Hdone. pose proof (setup_of_inv e) as Hinv.
  rewrite main_stages. unfold main_of_stages. rewrite Hdone in *.
  destruct Hinv as (Hi & Hc & Hfd & Hs & Hsession & Hl & Hlfd).
  pose proof (init_footprint e) as (_ & Hp1 & _).
  pose proof (socket_connect_footprint (serverip config) (serverport config)
                e (after (stage_init e))) as (Hp2 & _).
  pose proof (ssh_connect_footprint
                (val_of (-1) (value (stage_connect e))) AUTH_PUBLICKEY
                (username config) (password config)
                (publickeyfile config) (privatekeyfile config)
                (passphrase config) e (after (stage_connect e))) as (Hp3 & _).
  pose proof (socket_listen_footprint (localip config) (localport config)
                e (after (stage_session e))) as (Hp4 & _).
  pose proof (cleanup_footprint e (after (stage_listen e))) as (Hp5 & _).
  fold (stage_init e) in Hp1, Hp2. fold (stage_connect e) in Hp2, Hp3.
  fold (stage_session e) in Hp3, Hp4. fold (stage_listen e) in Hp4.
  cbn [after]. rewrite Hp5, Hp4, Hp3, Hp2, (Hp1 Hi).
  apply Z.eqb_neq in Hfd, Hsession, Hlfd.
  unfold record_socket, record_session, socket_invalid,
    set_libssh2_refs, set_wsa_refs.
  cbn [wsa_refs libssh2_refs socket_calls open_fds live_sessions].
  rewrite Hfd, Hsession, Hlfd.
  destruct (win32 e); repeat split; try reflexivity; discriminate.
Qed.

(** C4, as amended: a run that reaches [cleanup] releases what [init]
    acquired, libssh2 and on Windows the socket subsystem, and the program
    releases nothing else: the SSH session is never freed and is still
    allocated when [main] returns, and the program never closes a
    descriptor, so that without WIN32 the gateway socket and the listener
    socket are still open when [main] returns. *)
Theorem main_shutdown_releases_libraries_only (e : environment) :
  let r := main e boot in
  (1 <= cleanup_calls (emitted r))%nat ->
  libssh2_refs (after r) = 0%nat /\
  wsa_refs (after r) = 0%nat /\
  live_sessions (after r) = [r_session_init e] /\
  r_session_init e <> 0 /\
  (win32 e = false ->
   open_fds (after r) = [r_socket e 0; r_socket e 1] /\
   r_socket e 0 <> -1 /\ r_socket e 1 <> -1).
Proof.
  intros r Hreached. subst r.
  rewrite main_cleanup_calls in Hreached.
  pose proof (setup_of_inv e) as Hinv.
  destruct (setup_of e) eqn:Hsetup; try lia.
  destruct (main_complete_state e Hsetup) as (Hw & Hl & _ & Hs & Hfds).
  destruct Hinv as (_ & _ & Hfd & _ & Hsession & _ & Hlfd).
  split; [exact Hl|]. split; [exact Hw|]. split; [exact Hs|].
  split; [exact Hsession|].
  intros Hposix. split; [exact (Hfds Hposix)|]. split; assumption.
Qed.

Lemma main_shutdown_releases_libraries_only_witness :
  let r := main (cooperative "publickey,password") boot in
  libssh2_refs (after r) = 0%nat /\
  wsa_refs (after r) = 0%nat /\
  live_sessions (after r) = [4096] /\
  open_fds (after r) = [3; 4].
Proof.
  destruct (main_shutdown_releases_libraries_only
              (cooperative "publickey,password"))
    as (Hl & Hw & Hs & _ & Hfds).
  - vm_compute. lia.
  - destruct (Hfds eq_refl) as (Hopen & _).
    repeat split; assumption.
Defined.

(** C4 as stated fails: in the run where everything works, [main] reaches
    [cleanup] and returns 0 with two descriptors and the session open. *)
Lemma main_shutdown_counterexample :
  let r := main (cooperative "publickey,password") boot in
  value r = Val 0 /\
  cleanup_calls (emitted r) = 1%nat /\
  open_fds (after r) <> [] /\
  live_sessions (after r) <> [].
Proof. vm_compute. repeat split; discriminate. Qed.

(** C8: when [init] has succeeded and [socket_connect] fails, it returns
    -1 having logged one of its three errors; [main] then returns 1 at
    once: its events end with those of [socket_connect], [socket] was
    called once (for the gateway socket), and nothing was bound or put in
    listening state. *)
Theorem main_connector_failure (e : environment) :
  value (stage_init e) = Val 0 ->
  value (stage_connect e) = Val (-1) ->
  let r := main e boot in
  value r = Val 1 /\
  emitted r = (emitted (stage_init e) ++ [Log LogMsg "Connecting to %s..."]
                 ++ emitted (stage_connect e))%list /\
  (logged_error "Failed to open socket" (emitted r) \/
   logged_error "inet_addr error" (emitted r) \/
   logged_error "Failed to connect to %s:%d" (emitted r)) /\
  filter is_listener_call (emitted r) = [] /\
  filter is_socket_call (emitted r) = [Call c_socket] /\
  socket_calls (after r) = 1%nat.
Proof.
  intros Hi Hc r. subst r.
  assert (Hsetup : setup_of e = ConnectorFailed).
  { unfold setup_of. rewrite Hi, Hc. reflexivity. }
  pose proof (init_footprint e) as (_ & _ & Hn & Hil & His & _).
  pose proof (socket_connect_footprint (serverip config) (serverport config)
                e (after (stage_init e))) as (Hp2 & _ & Hlog & Hcl & Hcs & _).
  fold (stage_init e) in Hn, Hil, His, Hp2, Hlog, Hcl, Hcs.
  fold (stage_connect e) in Hp2, Hlog, Hcl, Hcs.
  rewrite main_stages. unfold main_of_stages. rewrite Hsetup.
  cbn [value emitted after]. rewrite <- app_assoc.
  split; [reflexivity|]. split; [reflexivity|].
  split.
  { unfold logged_error in *.
    destruct (Hlog Hc) as [H | [H | H]]; [left | right; left | right; right];
      apply in_or_app; right; apply in_or_app; right; exact H. }
  rewrite !filter_app, Hil, His, Hcl, Hcs, Hp2, Hn.
  repeat split. cbn [record_socket socket_calls]. now rewrite Hn.
Qed.

(** Scenario D: nobody answers at the configured address. *)
Lemma main_connector_failure_scenario_D :
  let r := main unreachable boot in
  value r = Val 1 /\
  logged_error "Failed to connect to %s:%d" (emitted r) /\
  filter is_listener_call (emitted r) = [] /\
  filter is_socket_call (emitted r) = [Call c_socket] /\
  socket_calls (after r) = 1%nat.
Proof.
  destruct (main_connector_failure unreachable)
    as (Hval & Hev & _ & Hl & Hs & Hn).
  - reflexivity.
  - reflexivity.
  - repeat split; try assumption.
    unfold logged_error. rewrite Hev. vm_compute. tauto.
Defined.

(** ** [socket_connect]: the address *)

Lemma join_split_on (sep : ascii) (s : string) :
  join sep (split_on sep s) = s.
Proof.
  induction s as [|c rest IH]; [reflexivity|].
  cbn [split_on].
  destruct (split_on_cons sep rest) as (f & fs & Heq & _).
  rewrite Heq in *.
  destruct (Ascii.eqb_spec c sep) as [-> | _].
  - cbn [join append]. cbn [join] in IH. now rewrite IH.
  - cbn [join] in *. destruct fs; cbn [append]; now rewrite IH.
Qed.

Lemma digit_value_decimal (c : ascii) (d : Z) :
  digit_value 10 c = Some d ->
  0 <= d <= 9 /\ c = ascii_of_nat (Z.to_nat (d + 48)).
Proof.
  unfold digit_value. cbn [Z.eqb andb].
  destruct ((48 <=? _) && (_ <=? 57)) eqn:Hrange; [|discriminate].
  apply andb_true_iff in Hrange as [Hlo Hhi].
  apply Z.leb_le in Hlo, Hhi.
  destruct (_ <? 10); [|discriminate].
  intros [= <-]. split; [lia|].
  replace (Z.of_nat (nat_of_ascii c) - 48 + 48) with (Z.of_nat (nat_of_ascii c))
    by lia.
  now rewrite Nat2Z.id, ascii_nat_embedding.
Qed.

Lemma digits_decimal_bound (s : string) (acc v : Z) :
  0 <= acc -> digits 10 s acc = Some v ->
  acc * 10 ^ Z.of_nat (String.length s) <= v.
Proof.
  revert acc. induction s as [|c rest IH]; intros acc Hacc; cbn [digits].
  - intros [= <-]. cbn. lia.
  - destruct (digit_value 10 c) as [d|] eqn:Hd; [|discriminate].
    apply digit_value_decimal in Hd as [Hd _].
    intros Hv. apply IH in Hv; [|lia].
    cbn [String.length]. rewrite Nat2Z.inj_succ, Z.pow_succ_r by lia.
    assert (0 < 10 ^ Z.of_nat (String.length rest)) by (apply Z.pow_pos_nonneg; lia).
    nia.
Qed.

(** On an octet the C notation is the decimal one. *)
Lemma is_octet_c_number (s : string) :
  is_octet s = true ->
  exists v, octet_value s = Some v /\ c_number s = Some v /\
            0 <= v <= 255 /\ (v = 255 -> s = "255").
Proof.
  destruct s as [|c1 rest]; [discriminate|].
  intros Hoctet. unfold octet_value. rewrite Hoctet. revert Hoctet.
  unfold is_octet, c_number.
  intros H. apply andb_true_iff in H as [Hlead Hv].
  destruct (digits 10 (String c1 rest) 0) as [v|] eqn:Hdigits; [|discriminate].
  apply Z.leb_le in Hv.
  pose proof (digits_decimal_bound _ _ _ (Z.le_refl 0) Hdigits) as Hpos.
  destruct (Ascii.eqb_spec c1 "0") as [-> | Hnz].
  - cbn [negb orb] in Hlead. apply String.eqb_eq in Hlead. subst rest.
    exists 0. cbn in Hdigits. injection Hdigits as <-.
    repeat split; lia.
  - exists v. split; [reflexivity|]. split; [reflexivity|]. split; [lia|].
    intros ->. clear Hlead Hv Hpos.
    cbn [digits] in Hdigits.
    destruct (digit_value 10 c1) as [d1|] eqn:H1; [|discriminate].
    apply digit_value_decimal in H1 as [R1 E1].
    assert (d1 <> 0).
    { intros ->. apply Hnz. rewrite E1. reflexivity. }
    destruct rest as [|c2 rest]; cbn [digits] in Hdigits.
    { injection Hdigits as Hd. lia. }
    destruct (digit_value 10 c2) as [d2|] eqn:H2; [|discriminate].
    apply digit_value_decimal in H2 as [R2 E2].
    destruct rest as [|c3 rest]; cbn [digits] in Hdigits.
    { injection Hdigits as Hd. lia. }
    destruct (digit_value 10 c3) as [d3|] eqn:H3; [|discriminate].
    apply digit_value_decimal in H3 as [R3 E3].
    destruct rest as [|c4 rest].
    + cbn [digits] in Hdigits. injection Hdigits as Hd.
      assert (d1 = 2 /\ d2 = 5 /\ d3 = 5) as (-> & -> & ->) by lia.
      subst c1 c2 c3. reflexivity.
    + apply digits_decimal_bound in Hdigits; [|lia].
      cbn [String.length] in Hdigits.
      rewrite Nat2Z.inj_succ, Z.pow_succ_r in Hdigits by lia.
      assert (0 < 10 ^ Z.of_nat (String.length rest))
        by (apply Z.pow_pos_nonneg; lia).
      nia.
Qed.

(** A dotted quad has a value; only 255.255.255.255 has the value of
    [INADDR_NONE]. *)
Lemma dotted_quad_value_spec (ip : string) :
  is_dotted_quad ip = true ->
  exists v, dotted_quad_value ip = Some v /\ numbers ip = Some v /\
            0 <= v < 2 ^ 32 /\
            (v = INADDR_NONE -> ip = "255.255.255.255").
Proof.
  unfold is_dotted_quad, dotted_quad_value, numbers.
  pose proof (join_split_on "." ip) as Hjoin.
  destruct (split_on "." ip) as [|a [|b [|c [|d [|]]]]]; try discriminate.
  intros H. cbn [map].
  repeat (apply andb_true_iff in H as [H ?]).
  destruct (is_octet_c_number a) as (va & -> & -> & Ra & Ea); [assumption|].
  destruct (is_octet_c_number b) as (vb & -> & -> & Rb & Eb); [assumption|].
  destruct (is_octet_c_number c) as (vc & -> & -> & Rc & Ec); [assumption|].
  destruct (is_octet_c_number d) as (vd & -> & -> & Rd & Ed); [assumption|].
  replace ((va <=? 255) && (vb <=? 255) && (vc <=? 255) && (vd <=? 255))
    with true
    by (symmetry; repeat (apply andb_true_iff; split); apply Z.leb_le; lia).
  eexists. split; [reflexivity|]. split; [reflexivity|]. split; [lia|].
  change INADDR_NONE with 4294967295.
  intros Hall.
  assert (va = 255 /\ vb = 255 /\ vc = 255 /\ vd = 255)
    as (Ha & Hb & Hc & Hd) by lia.
  rewrite <- Hjoin.
  rewrite (Ea Ha), (Eb Hb), (Ec Hc), (Ed Hd). reflexivity.
Qed.

(** *** The sample environments read dotted quads *)

Lemma digits_before_space (s : string) (acc v : Z) :
  digits 10 s acc = Some v -> before_space s = s.
Proof.
  revert acc. induction s as [|c rest IH]; intros acc; [reflexivity|].
  cbn [digits before_space].
  destruct (digit_value 10 c) as [d|] eqn:Hd; [|discriminate].
  apply digit_value_decimal in Hd as [Hd ->].
  intros Hrest. rewrite (IH _ Hrest).
  assert (d = 0 \/ d = 1 \/ d = 2 \/ d = 3 \/ d = 4 \/
          d = 5 \/ d = 6 \/ d = 7 \/ d = 8 \/ d = 9) as Hcases by lia.
  repeat destruct Hcases as [-> | Hcases]; try subst d; reflexivity.
Qed.

Lemma before_space_fields (s : string) :
  (forall f, In f (split_on "." s) -> before_space f = f) ->
  before_space s = s.
Proof.
  induction s as [|c rest IH]; [reflexivity|].
  cbn [split_on].
  destruct (split_on_cons "." rest) as (f & fs & Heq & _).
  rewrite Heq in *.
  destruct (Ascii.eqb_spec c ".") as [-> | _]; intros Hfields.
  - cbn [before_space]. change (is_space ".") with false. cbv iota.
    rewrite IH; [reflexivity|].
    intros g Hg. apply Hfields. right. exact Hg.
  - pose proof (Hfields (String c f) (or_introl eq_refl)) as Hfirst.
    cbn [before_space] in *.
    destruct (is_space c); [discriminate Hfirst|].
    rewrite IH; [reflexivity|].
    intros g [<- | Hg].
    + congruence.
    + apply Hfields. right. exact Hg.
Qed.

Lemma numbers_and_dots_reads_dotted_quads (ip : string) (v : Z) :
  dotted_quad_value ip = Some v -> numbers_and_dots ip = Some v.
Proof.
  intros Hv.
  assert (Hoctets : forall f w, octet_value f = Some w -> is_octet f = true).
  { intros f w. unfold octet_value. destruct (is_octet f); congruence. }
  assert (Hquad : is_dotted_quad ip = true).
  { revert Hv. unfold dotted_quad_value, is_dotted_quad.
    destruct (split_on "." ip) as [|a [|b [|c [|d [|]]]]]; cbn [map];
      repeat match goal with
             | |- context [octet_value ?f] =>
                 let H := fresh "Hf" in
                 destruct (octet_value f) eqn:H;
                 [apply Hoctets in H; rewrite ?H|]
             end;
      cbv beta iota; try discriminate.
    intros _. reflexivity. }
  destruct (dotted_quad_value_spec ip Hquad) as (v' & Hv' & Hnum & _).
  assert (v' = v) as -> by congruence.
  unfold numbers_and_dots. rewrite before_space_fields; [exact Hnum|].
  intros f Hf. revert Hquad Hf. unfold is_dotted_quad.
  destruct (split_on "." ip) as [|a [|b [|c [|d [|]]]]]; try discriminate.
  intros H Hf. repeat (apply andb_true_iff in H as [H ?]).
  assert (Hoctet : is_octet f = true).
  { repeat destruct Hf as [<- | Hf]; try assumption. contradiction. }
  destruct (is_octet_c_number f Hoctet) as (vf & Hvf & _).
  unfold octet_value in Hvf. rewrite Hoctet in Hvf.
  exact (digits_before_space f 0 vf Hvf).
Qed.

(** Where dotted quads are read as POSIX says, each but 255.255.255.255
    gets an address that is not [INADDR_NONE]. *)
Lemma dotted_quad_inet_addr (e : environment) (ip : string) :
  reads_dotted_quads e ->
  is_dotted_quad ip = true ->
  ip <> "255.255.255.255" ->
  inet_addr_value e ip <> INADDR_NONE.
Proof.
  intros Hreads Hquad Hne Hfail.
  destruct (dotted_quad_value_spec ip Hquad) as (v & Hv & _ & Hrange & Hnone).
  apply Hreads in Hv. unfold inet_addr_value in Hfail. rewrite Hv in Hfail.
  unfold in_addr_t in Hfail. rewrite Z.mod_small in Hfail by exact Hrange.
  exact (Hne (Hnone Hfail)).
Qed.

Lemma cooperative_reads_dotted_quads (methods : string) :
  reads_dotted_quads (cooperative methods).
Proof. exact numbers_and_dots_reads_dotted_quads. Qed.

(** C7, as amended: once [socket_connect] has its socket, the address step
    is [inet_addr]'s alone.  It fails, and the function returns -1, for
    every string [inet_addr] finds malformed; it succeeds, and [connect]
    is called on the address, for every string [inet_addr] reads as an
    address other than the one equal to [INADDR_NONE].  Where [inet_addr]
    reads dotted quads as POSIX says, every dotted quad (four decimal
    numbers from 0 to 255 without leading zeros) other than
    255.255.255.255 therefore passes; so do the other forms [inet_addr]
    takes, which are not dotted quads.  The only calls made are [socket],
    [inet_addr] on the string and [connect]: no name is looked up. *)
Theorem socket_connect_resolution
  (e : environment) (p : process) (ip : string) (port : Z) :
  r_socket e (socket_calls p) <> socket_invalid ->
  let r := socket_connect ip port e p in
  let fd := r_socket e (socket_calls p) in
  (r_inet_addr e ip = None -> resolution_failed r /\ value r = Val (-1)) /\
  (forall v, r_inet_addr e ip = Some v -> in_addr_t v <> INADDR_NONE ->
     ~ resolution_failed r /\
     In (Call (c_connect fd (in_addr_t v) (htons port))) (emitted r)) /\
  (reads_dotted_quads e ->
   is_dotted_quad ip = true -> ip <> "255.255.255.255" ->
   ~ resolution_failed r) /\
  (forall c, In (Call c) (emitted r) ->
     c = c_socket \/ c = c_inet_addr ip \/
     c = c_connect fd (inet_addr_value e ip) (htons port)).
Proof.
  intros Hsock r fd.
  assert (Hiff : resolution_failed r <-> inet_addr_value e ip = INADDR_NONE).
  { subst r. unfold resolution_failed, logged_error.
    run_all; tests; try congruence; cbn [In]; split; try congruence;
      intros H; repeat destruct H as [H | H]; try discriminate H;
      try contradiction; auto. }
  split.
  { intros Hnone.
    assert (Hfail : inet_addr_value e ip = INADDR_NONE)
      by (unfold inet_addr_value; now rewrite Hnone).
    split; [now apply Hiff|]. subst r. run_all; tests; congruence. }
  split.
  { intros v Hv Hne.
    assert (Hvalue : inet_addr_value e ip = in_addr_t v)
      by (unfold inet_addr_value; now rewrite Hv).
    split; [rewrite Hiff; congruence|].
    subst r fd. rewrite <- Hvalue.
    run_all; tests; try congruence; cbn [In]; auto 6. }
  split.
  { intros Hreads Hquad Hne Hfail. apply Hiff in Hfail.
    exact (dotted_quad_inet_addr e ip Hreads Hquad Hne Hfail). }
  subst r fd. intros c.
  run_all; tests; try congruence; cbn [In]; intros H;
    repeat destruct H as [H | H]; try discriminate H; try contradiction;
    injection H as <-; auto.
Qed.

Lemma socket_connect_resolution_witness :
  let r := socket_connect "198.61.166.171" 22
             (cooperative "publickey,password") boot in
  ~ resolution_failed r /\ value r = Val 3.
Proof.
  destruct (socket_connect_resolution (cooperative "publickey,password") boot
              "198.61.166.171" 22) as (_ & _ & Hquad & _).
  - cbn. discriminate.
  - split; [|reflexivity].
    apply Hquad;
      [apply cooperative_reads_dotted_quads | reflexivity | discriminate].
Defined.

(** C7 as stated fails: 127.1 is not a dotted quad, and the address step
    accepts it: [inet_addr] reads it as 127.0.0.1 and [socket_connect]
    goes on to connect there. *)
Lemma socket_connect_resolution_counterexample :
  let r := socket_connect "127.1" 22
             (cooperative "publickey,password") boot in
  is_dotted_quad "127.1" = false /\
  ~ resolution_failed r /\
  emitted r = [Call c_socket; Call (c_inet_addr "127.1");
               Call (c_connect 3 2130706433 22)] /\
  value r = Val 3.
Proof.
  split; [reflexivity|]. split; [|split; reflexivity].
  unfold resolution_failed, logged_error. vm_compute.
  intros H. repeat destruct H as [H | H]; try discriminate H. exact H.
Qed.

(** The address equal to [INADDR_NONE] is a dotted quad, and the step
    refuses it. *)
Example broadcast_address_refused :
  let r := socket_connect "255.255.255.255" 22
             (cooperative "publickey,password") boot in
  is_dotted_quad "255.255.255.255" = true /\
  resolution_failed r /\
  value r = Val (-1).
Proof.
  split; [reflexivity|]. split; [|reflexivity].
  unfold resolution_failed, logged_error. vm_compute. tauto.
Qed.

(** What the sample [inet_addr] takes besides dotted quads. *)
Example short_forms_resolve :
  numbers_and_dots "127.1" = numbers_and_dots "127.0.0.1" /\
  numbers_and_dots "0x7f.0.0.1" = numbers_and_dots "127.0.0.1" /\
  numbers_and_dots "1.2.3.4 " = numbers_and_dots "1.2.3.4" /\
  numbers_and_dots "127.0.0.1 x" = Some 2130706433 /\
  numbers_and_dots "192.168.1.08" = None /\
  numbers_and_dots "4294967295" = Some 4294967295.
Proof. vm_compute. repeat split. Qed.

(** ** The byte pump *)

Section PumpFacts.
Local Open Scope nat_scope.
Local Open Scope list_scope.

Variable buffer_size : nat.
Variable io : nat -> Relay.io_event.
Hypothesis buffer_positive : 0 < buffer_size.
Hypothesis no_io_error : forall i, io i <> Relay.IoError.

Lemma read_spec (ready : nat) (b : Byte.byte) (source : list Byte.byte) :
  let (chunk, rest) := Relay.read buffer_size ready (b :: source) in
  chunk ++ rest = b :: source /\
  Relay.chunk_ok buffer_size chunk /\
  List.length rest < List.length (b :: source).
Proof.
  unfold Relay.read, Relay.chunk_ok.
  set (n := Nat.min buffer_size (Nat.max 1 ready)).
  assert (1 <= n <= buffer_size) as [Hlo Hhi] by (subst n; lia).
  split; [apply firstn_skipn|].
  rewrite length_firstn, length_skipn. cbn [List.length]. lia.
Qed.

Lemma pump_delivers (fuel : nat) :
  forall i source written,
    List.length source < fuel ->
    exists chunks,
      Relay.pump buffer_size io fuel i source written
        = Some (Relay.EndOfStream, written ++ chunks) /\
      Relay.received chunks = source /\
      Forall (Relay.chunk_ok buffer_size) chunks.
Proof.
  induction fuel as [|fuel IH]; intros i source written Hfuel; [lia|].
  destruct source as [|b source]; cbn [Relay.pump].
  - exists []. rewrite app_nil_r. repeat split. constructor.
  - destruct (io i) as [|n] eqn:Hio; [now apply no_io_error in Hio|].
    pose proof (read_spec n b source) as Hread.
    destruct (Relay.read buffer_size n (b :: source)) as [chunk rest].
    destruct Hread as (Hsplit & Hok & Hshorter).
    destruct (IH (S i) rest (written ++ [chunk]))
      as (chunks & Hrun & Hrec & Hall); [lia|].
    exists (chunk :: chunks). split; [|split].
    + rewrite Hrun, <- app_assoc. reflexivity.
    + unfold Relay.received in *. cbn [List.concat]. now rewrite Hrec.
    + now constructor.
Qed.
End PumpFacts.

(** C2: with a positive buffer size and no I/O error, the pump ends at the
    end of the stream (any fuel above the number of bytes is enough) and
    the destination has received exactly the bytes [B] the client wrote,
    in order, nothing lost and nothing twice; they arrive in chunks of at
    most the buffer size. *)
Theorem pump_transparent
  (buffer_size : nat) (io : nat -> Relay.io_event) (B : list Byte.byte)
  (fuel : nat) :
  (0 < buffer_size)%nat ->
  (forall i, io i <> Relay.IoError) ->
  (List.length B < fuel)%nat ->
  exists chunks,
    Relay.pump buffer_size io fuel 0 B [] = Some (Relay.EndOfStream, chunks) /\
    Relay.received chunks = B /\
    Forall (Relay.chunk_ok buffer_size) chunks.
Proof.
  intros Hsize Hio Hfuel.
  destruct (pump_delivers buffer_size io Hsize Hio fuel 0 B [] Hfuel)
    as (chunks & Hrun & Hrec & Hall).
  exists chunks. auto.
Qed.

(** Scenario C: ten bytes through a four byte buffer, the transport
    offering 1, 2, 3, ... bytes. *)
Lemma pump_transparent_witness :
  exists chunks,
    Relay.pump 4 (fun i => Relay.Ready (S i)) 11 0 Relay.ten_bytes []
      = Some (Relay.EndOfStream, chunks) /\
    Relay.received chunks = Relay.ten_bytes /\
    Forall (Relay.chunk_ok 4) chunks.
Proof.
  apply (pump_transparent 4 (fun i => Relay.Ready (S i)) Relay.ten_bytes 11).
  - lia.
  - intros i. discriminate.
  - cbn. lia.
Defined.

Example pump_ten_bytes :
  Relay.pump 4 (fun i => Relay.Ready (S i)) 11 0 Relay.ten_bytes []
  = Some (Relay.EndOfStream,
          [[Byte.x30];
           [Byte.x31; Byte.x32];
           [Byte.x33; Byte.x34; Byte.x35];
           [Byte.x36; Byte.x37; Byte.x38; Byte.x39]]).
Proof. reflexivity. Qed.

(** * Further properties of the program *)

(** ** [init] and [cleanup] *)

(** X1: [cleanup] undoes a successful [init]: run one after the other
    from any state, they leave the state as it was. *)
Theorem init_cleanup_round_trip (e : environment) (p : process) :
  value (init e p) = Val 0 ->
  after (cleanup e (after (init e p))) = p.
Proof.
  destruct p. run_all; cbn; intros H; try discriminate H; tests;
    try congruence; reflexivity.
Qed.

Lemma init_cleanup_round_trip_witness :
  after (cleanup (windows 0) (after (init (windows 0) boot))) = boot.
Proof.
  apply (init_cleanup_round_trip (windows 0) boot). reflexivity.
Defined.

(** Closing the cases of a run: what is left after the tests are facts
    about the answers of the environment. *)
Ltac settle :=
  tests; cbn [filter is_error is_call is_credential is_credential_call
              is_listener_call is_socket_call In];
  repeat match goal with
         | |- _ /\ _ => split
         | |- _ <-> _ => split
         | |- forall _, _ => intro
         | H : _ /\ _ |- _ => destruct H
         | H : Val _ = Val _ |- _ => injection H as H
         | H : _ \/ False |- _ => destruct H as [H | []]
         end;
  try discriminate; try reflexivity; try congruence; try tauto;
  try solve [eexists; reflexivity];
  try solve [eexists; split; reflexivity];
  try solve [exfalso; intuition congruence];
  try solve [let H := fresh in
             intro H; repeat destruct H as [H | H];
             first [discriminate H | contradiction | congruence]].

(** X2: on Windows, when [WSAStartup] has succeeded and [libssh2_init]
    fails, [init] returns 1 and leaves the socket subsystem started: it
    does not call [WSACleanup]. *)
Theorem init_failure_keeps_winsock (e : environment) (p : process) :
  win32 e = true ->
  r_WSAStartup e = 0 ->
  r_libssh2_init e <> 0 ->
  let r := init e p in
  value r = Val 1 /\
  wsa_refs (after r) = S (wsa_refs p) /\
  ~ In (Call c_WSACleanup) (emitted r).
Proof.
  intros Hw Hwsa Hssh. run_all; settle.
Qed.

Lemma init_failure_keeps_winsock_witness :
  let r := init (windows (-1)) boot in
  value r = Val 1 /\
  wsa_refs (after r) = 1%nat /\
  ~ In (Call c_WSACleanup) (emitted r).
Proof.
  apply (init_failure_keeps_winsock (windows (-1)) boot).
  - reflexivity.
  - reflexivity.
  - discriminate.
Defined.

(** X3: [init] returns 0, having logged no error, exactly when every
    initialisation it makes succeeds ([WSAStartup] on Windows, then
    [libssh2_init]); otherwise it returns 1 having logged exactly one
    error.  When [WSAStartup] fails, [libssh2_init] is not called. *)
Theorem init_contract (e : environment) (p : process) :
  let r := init e p in
  let ok := (win32 e = true -> r_WSAStartup e = 0) /\ r_libssh2_init e = 0 in
  (ok -> value r = Val 0 /\ errors (emitted r) = []) /\
  (~ ok -> value r = Val 1 /\
           exists msg, errors (emitted r) = [Log LogError msg]) /\
  (win32 e = true -> r_WSAStartup e <> 0 ->
   ~ In (Call (c_libssh2_init 0)) (emitted r)).
Proof.
  unfold errors. run_all; settle.
Qed.

(** ** [socket_connect] and [socket_listen] *)

(** X4: [socket_connect] returns the descriptor [socket] gave it, connected
    to the address [inet_addr] returned and to the port reduced to 16
    bits, having logged no error, exactly when the socket was created,
    [inet_addr] returned something other than [INADDR_NONE] and [connect]
    returned 0; in every other case it returns -1 having logged exactly
    one error. *)
Theorem socket_connect_contract
  (e : environment) (p : process) (ip : string) (port : Z) :
  let r := socket_connect ip port e p in
  let fd := r_socket e (socket_calls p) in
  let ok := fd <> -1 /\ inet_addr_value e ip <> INADDR_NONE /\ r_connect e = 0 in
  (ok -> value r = Val fd /\ errors (emitted r) = [] /\
         calls (emitted r) =
           [Call c_socket; Call (c_inet_addr ip);
            Call (c_connect fd (inet_addr_value e ip) (port mod 65536))]) /\
  (~ ok -> value r = Val (-1) /\
           exists msg, errors (emitted r) = [Log LogError msg]).
Proof.
  unfold errors, calls, htons. run_all; settle.
Qed.

(** X5: when [socket_connect] fails after its socket was created
    ([inet_addr] returned [INADDR_NONE], or [connect] failed), it returns
    -1 and the descriptor stays open: the caller gets no handle to close
    it with. *)
Theorem socket_connect_failure_leaks_descriptor
  (e : environment) (p : process) (ip : string) (port : Z) :
  let r := socket_connect ip port e p in
  let fd := r_socket e (socket_calls p) in
  fd <> -1 ->
  inet_addr_value e ip = INADDR_NONE \/ r_connect e <> 0 ->
  value r = Val (-1) /\ In fd (open_fds (after r)).
Proof.
  intros r fd Hfd Hfail. subst r fd.
  destruct (socket_connect_footprint ip port e p) as (Hafter & _).
  rewrite Hafter. unfold record_socket, socket_invalid. cbn [open_fds].
  apply Z.eqb_neq in Hfd as Hfd'. rewrite Hfd'.
  split; [|apply in_or_app; right; left; reflexivity].
  run_all; settle.
Qed.

Lemma socket_connect_failure_leaks_descriptor_witness :
  let r := socket_connect "198.61.166.171" 22 unreachable boot in
  value r = Val (-1) /\ In 3 (open_fds (after r)).
Proof.
  apply (socket_connect_failure_leaks_descriptor
           unreachable boot "198.61.166.171" 22).
  - cbn. discriminate.
  - right. cbn. discriminate.
Defined.

(** X6: [socket_listen] returns the descriptor [socket] gave it, having
    logged no error, exactly when the socket was created, [inet_addr]
    returned something other than [INADDR_NONE] and neither [bind] nor
    [listen] returned -1; the descriptor has then had the address-reuse
    option set before being bound to the address [inet_addr] returned and
    the port reduced to 16 bits, and listens with a backlog of 2.  In
    every other case it returns -1 having logged exactly one error. *)
Theorem socket_listen_contract
  (e : environment) (p : process) (ip : string) (port : Z) :
  let r := socket_listen ip port e p in
  let fd := r_socket e (socket_calls p) in
  let ok := fd <> -1 /\ inet_addr_value e ip <> INADDR_NONE /\
            r_bind e <> -1 /\ r_listen e <> -1 in
  (ok -> value r = Val fd /\ errors (emitted r) = [] /\
         calls (emitted r) =
           [Call c_socket; Call (c_inet_addr ip); Call (c_setsockopt fd);
            Call (c_bind fd (inet_addr_value e ip) (port mod 65536));
            Call (c_listen fd 2)]) /\
  (~ ok -> value r = Val (-1) /\
           exists msg, errors (emitted r) = [Log LogError msg]).
Proof.
  unfold errors, calls, htons. run_all; settle.
Qed.

(** X7: when [socket_listen] fails after its socket was created
    ([inet_addr] returned [INADDR_NONE], [bind] failed or [listen]
    failed), it returns -1 and the descriptor stays open. *)
Theorem socket_listen_failure_leaks_descriptor
  (e : environment) (p : process) (ip : string) (port : Z) :
  let r := socket_listen ip port e p in
  let fd := r_socket e (socket_calls p) in
  fd <> -1 ->
  inet_addr_value e ip = INADDR_NONE \/ r_bind e = -1 \/ r_listen e = -1 ->
  value r = Val (-1) /\ In fd (open_fds (after r)).
Proof.
  intros r fd Hfd Hfail. subst r fd.
  destruct (socket_listen_footprint ip port e p) as (Hafter & _).
  rewrite Hafter. unfold record_socket, socket_invalid. cbn [open_fds].
  apply Z.eqb_neq in Hfd as Hfd'. rewrite Hfd'.
  split; [|apply in_or_app; right; left; reflexivity].
  run_all; settle.
Qed.

Lemma socket_listen_failure_leaks_descriptor_witness :
  let r := socket_listen "127.0.0.1" 27040 port_taken boot in
  value r = Val (-1) /\ In 3 (open_fds (after r)).
Proof.
  apply (socket_listen_failure_leaks_descriptor
           port_taken boot "127.0.0.1" 27040).
  - cbn. discriminate.
  - right. left. reflexivity.
Defined.

(** X8: once [socket_listen] has its socket, its address step fails
    exactly when [inet_addr] returns [INADDR_NONE]; the function then
    returns -1 before setting any option, binding or listening.  Where
    [inet_addr] reads dotted quads as POSIX says, the step passes for
    every dotted quad (four decimal numbers from 0 to 255 without leading
    zeros) other than 255.255.255.255. *)
Theorem socket_listen_resolution
  (e : environment) (p : process) (ip : string) (port : Z) :
  r_socket e (socket_calls p) <> socket_invalid ->
  let r := socket_listen ip port e p in
  (logged_error "inet_addr" (emitted r)
   <-> inet_addr_value e ip = INADDR_NONE) /\
  (logged_error "inet_addr" (emitted r) ->
   value r = Val (-1) /\ filter is_listener_call (emitted r) = []) /\
  (reads_dotted_quads e ->
   is_dotted_quad ip = true -> ip <> "255.255.255.255" ->
   ~ logged_error "inet_addr" (emitted r)).
Proof.
  intros Hsock r.
  assert (Hiff : logged_error "inet_addr" (emitted r)
                 <-> inet_addr_value e ip = INADDR_NONE).
  { subst r. unfold logged_error. run_all; settle. }
  split; [exact Hiff|]. split.
  - intros Hfail. apply Hiff in Hfail. subst r. run_all; settle.
  - intros Hreads Hquad Hne Hfail. apply Hiff in Hfail.
    exact (dotted_quad_inet_addr e ip Hreads Hquad Hne Hfail).
Qed.

Lemma socket_listen_resolution_witness :
  let r := socket_listen "127.0.0.1" 27040
             (cooperative "publickey,password") boot in
  ~ logged_error "inet_addr" (emitted r) /\ value r = Val 3.
Proof.
  destruct (socket_listen_resolution (cooperative "publickey,password") boot
              "127.0.0.1" 27040) as (_ & _ & Hquad).
  - cbn. discriminate.
  - split; [|reflexivity].
    apply Hquad;
      [apply cooperative_reads_dotted_quads | reflexivity | discriminate].
Defined.

(** X9: the port is an [int] that [htons] cuts to 16 bits: a port and the
    same port plus 65536 give the same return value, the same resources
    and the same calls, in [socket_connect] and in [socket_listen]. *)
Theorem port_wraps
  (e : environment) (p : process) (ip : string) (port : Z) :
  let same (f : string -> Z -> M Z) :=
    let r := f ip port e p in
    let r' := f ip (port + 65536) e p in
    value r' = value r /\ after r' = after r /\
    calls (emitted r') = calls (emitted r) in
  same socket_connect /\ same socket_listen.
Proof.
  assert (Hwrap : htons (port + 65536) = htons port).
  { unfold htons. rewrite <- (Z.mul_1_l 65536) at 1.
    now rewrite Z.mod_add by lia. }
  cbv zeta. split; unfold_run; rewrite Hwrap; run_all; settle.
Qed.

(** ** [ssh_connect] *)

(** X10: when the gateway returns a method list, [ssh_connect] returns the
    session it created, having logged no error, exactly when the session
    was created, the handshake succeeded, a method was selected whose name
    occurs in the list, and the gateway accepted the credential; in every
    other case it returns 0 having logged exactly one error. *)
Theorem ssh_connect_contract
  (e : environment) (p : process) (sock : Z) (t : ssh_auth_type)
  (user pw pub priv pass methods : string) :
  r_userauth_list e = Some methods ->
  let r := ssh_connect sock t user pw pub priv pass e p in
  let ok := r_session_init e <> 0 /\ r_session_handshake e = 0 /\
            t <> AUTH_NONE /\ strstr methods (method_name t) <> None /\
            verdict e t = 0 in
  (ok -> value r = Val (r_session_init e) /\ errors (emitted r) = []) /\
  (~ ok -> value r = Val 0 /\
           exists msg, errors (emitted r) = [Log LogError msg]).
Proof.
  intros Hlist. unfold errors.
  destruct t; cbn [method_name verdict]; run_all; settle.
Qed.

Lemma ssh_connect_contract_witness :
  let r := ssh_connect 3 AUTH_PUBLICKEY "dmitry" ""
             "/Users/dmitry/.ssh/ubuntik.pub" "/Users/dmitry/.ssh/ubuntik" ""
             (cooperative "password,publickey") boot in
  value r = Val 4096 /\ errors (emitted r) = [].
Proof.
  destruct (ssh_connect_contract (cooperative "password,publickey") boot 3
              AUTH_PUBLICKEY "dmitry" ""
              "/Users/dmitry/.ssh/ubuntik.pub" "/Users/dmitry/.ssh/ubuntik" ""
              "password,publickey") as (Hok & _).
  - reflexivity.
  - apply Hok. cbn. repeat split; discriminate.
Defined.

(** X11: [ssh_connect] has undefined behaviour exactly when the session
    was created, the handshake succeeded and [libssh2_userauth_list]
    returned NULL: the list is then read without a check.  No credential
    has been submitted at that point. *)
Theorem ssh_connect_undefined_iff
  (e : environment) (p : process) (sock : Z) (t : ssh_auth_type)
  (user pw pub priv pass : string) :
  let r := ssh_connect sock t user pw pub priv pass e p in
  (value r = Undefined <->
   r_session_init e <> 0 /\ r_session_handshake e = 0 /\
   r_userauth_list e = None) /\
  (value r = Undefined -> credentials (emitted r) = []).
Proof.
  unfold credentials. destruct t; run_all; settle.
Qed.

(** X12: when [ssh_connect] has created its session and does not return
    it (handshake or authentication failed, method not offered, NULL
    list), the session stays allocated: it is never freed and the caller
    gets no handle to it. *)
Theorem ssh_connect_failure_leaks_session
  (e : environment) (p : process) (sock : Z) (t : ssh_auth_type)
  (user pw pub priv pass : string) :
  let r := ssh_connect sock t user pw pub priv pass e p in
  r_session_init e <> 0 ->
  value r <> Val (r_session_init e) ->
  In (r_session_init e) (live_sessions (after r)) /\
  open_fds (after r) = open_fds p.
Proof.
  intros r Hsession Hfail. subst r.
  destruct (ssh_connect_footprint sock t user pw pub priv pass e p)
    as (Hafter & _).
  rewrite Hafter. unfold record_session. cbn [live_sessions open_fds].
  apply Z.eqb_neq in Hsession. rewrite Hsession.
  split; [apply in_or_app; right; left|]; reflexivity.
Qed.

Lemma ssh_connect_failure_leaks_session_witness :
  let r := ssh_connect 3 AUTH_PASSWORD "dmitry" "secret" "" "" ""
             (refusing "publickey,password") boot in
  In 4096 (live_sessions (after r)) /\ open_fds (after r) = [].
Proof.
  apply (ssh_connect_failure_leaks_session
           (refusing "publickey,password") boot 3 AUTH_PASSWORD
           "dmitry" "secret" "" "" "").
  - cbn. discriminate.
  - cbn. discriminate.
Defined.

(** X13: the credentials of a method that was not selected play no part:
    with the public key selected the password argument changes nothing,
    with the password selected the key paths and the passphrase change
    nothing, and with [AUTH_NONE] none of them does.  The events carry the
    arguments of every call, so these credentials are never passed on. *)
Theorem ssh_connect_unused_credentials
  (e : environment) (p : process) (sock : Z)
  (user pw pub priv pass pw' pub' priv' pass' : string) :
  ssh_connect sock AUTH_PUBLICKEY user pw' pub priv pass e p
    = ssh_connect sock AUTH_PUBLICKEY user pw pub priv pass e p /\
  ssh_connect sock AUTH_PASSWORD user pw pub' priv' pass' e p
    = ssh_connect sock AUTH_PASSWORD user pw pub priv pass e p /\
  ssh_connect sock AUTH_NONE user pw' pub' priv' pass' e p
    = ssh_connect sock AUTH_NONE user pw pub priv pass e p.
Proof.
  repeat split; run_all; reflexivity.
Qed.

(** X14: of the method list, only one thing decides what a call does:
    whether the name of the selected method occurs in it.  Two lists that
    agree on that give the same return value, the same resources and the
    same calls, whatever else they contain.  (The list itself is printed
    in the log, which is left out of the comparison.) *)
Theorem ssh_connect_list_relevance
  (e : environment) (p : process) (sock : Z) (t : ssh_auth_type)
  (user pw pub priv pass m1 m2 : string) :
  t <> AUTH_NONE ->
  non_null (strstr m1 (method_name t)) = non_null (strstr m2 (method_name t)) ->
  let r1 := ssh_connect sock t user pw pub priv pass
              (with_userauth_list (Some m1) e) p in
  let r2 := ssh_connect sock t user pw pub priv pass
              (with_userauth_list (Some m2) e) p in
  value r1 = value r2 /\
  after r1 = after r2 /\
  calls (emitted r1) = calls (emitted r2).
Proof.
  intros Ht Hsame.
  assert (Hinit : forall l, r_session_init (with_userauth_list l e)
                              = r_session_init e) by reflexivity.
  assert (Hhs : forall l, r_session_handshake (with_userauth_list l e)
                            = r_session_handshake e) by reflexivity.
  assert (Hlist : forall l, r_userauth_list (with_userauth_list l e) = l)
    by reflexivity.
  assert (Hpw : forall l, r_userauth_password (with_userauth_list l e)
                            = r_userauth_password e) by reflexivity.
  assert (Hkey : forall l,
             r_userauth_publickey_fromfile (with_userauth_list l e)
             = r_userauth_publickey_fromfile e) by reflexivity.
  destruct t; [congruence| |]; cbn [method_name] in Hsame;
    revert Hsame; unfold_run;
    repeat (rewrite ?Hinit, ?Hhs, ?Hlist, ?Hpw, ?Hkey; branch; unfold_run);
    intros Hsame; cbn [non_null] in Hsame;
    try (repeat split; reflexivity); congruence.
Qed.

Lemma ssh_connect_list_relevance_witness :
  let r1 := ssh_connect 3 AUTH_PUBLICKEY "dmitry" "" "a.pub" "a" ""
              (with_userauth_list (Some "publickey") (cooperative "")) boot in
  let r2 := ssh_connect 3 AUTH_PUBLICKEY "dmitry" "" "a.pub" "a" ""
              (with_userauth_list
                 (Some "password,publickey,keyboard-interactive")
                 (cooperative "")) boot in
  value r1 = value r2 /\
  after r1 = after r2 /\
  calls (emitted r1) = calls (emitted r2).
Proof.
  apply (ssh_connect_list_relevance (cooperative "") boot 3 AUTH_PUBLICKEY
           "dmitry" "" "a.pub" "a" "" "publickey"
           "password,publickey,keyboard-interactive").
  - discriminate.
  - reflexivity.
Defined.

(** ** [main] *)

(** *** The errors and the credentials of each step *)

Lemma init_errors (e : environment) (p : process) :
  let r := init e p in
  (value r = Val 0 -> errors (emitted r) = []) /\
  (value r = Val 1 -> exists msg, errors (emitted r) = [Log LogError msg]) /\
  credentials (emitted r) = [].
Proof. unfold errors, credentials. run_all; settle. Qed.

Lemma socket_connect_errors (ip : string) (port : Z)
  (e : environment) (p : process) :
  let r := socket_connect ip port e p in
  (value r <> Val (-1) -> errors (emitted r) = []) /\
  (value r = Val (-1) ->
   exists msg, errors (emitted r) = [Log LogError msg]) /\
  credentials (emitted r) = [].
Proof. unfold errors, credentials. run_all; settle. Qed.

Lemma socket_listen_errors (ip : string) (port : Z)
  (e : environment) (p : process) :
  let r := socket_listen ip port e p in
  (value r <> Val (-1) -> errors (emitted r) = []) /\
  (value r = Val (-1) ->
   exists msg, errors (emitted r) = [Log LogError msg]) /\
  credentials (emitted r) = [].
Proof. unfold errors, credentials. run_all; settle. Qed.

Lemma ssh_connect_errors (sock : Z) (t : ssh_auth_type)
  (user pw pub priv pass : string) (e : environment) (p : process) :
  let r := ssh_connect sock t user pw pub priv pass e p in
  (value r <> Val 0 -> errors (emitted r) = []) /\
  (value r = Val 0 -> exists msg, errors (emitted r) = [Log LogError msg]).
Proof. unfold errors. destruct t; run_all; settle. Qed.

Lemma cleanup_errors (e : environment) (p : process) :
  errors (emitted (cleanup e p)) = [] /\
  credentials (emitted (cleanup e p)) = [].
Proof. unfold errors, credentials. run_all; settle. Qed.

(** A session returned is a session authenticated. *)
Lemma ssh_connect_success (sock : Z) (t : ssh_auth_type)
  (user pw pub priv pass : string) (e : environment) (p : process) :
  let r := ssh_connect sock t user pw pub priv pass e p in
  value r = Val (r_session_init e) -> r_session_init e <> 0 ->
  r_session_handshake e = 0 /\ verdict e t = 0 /\
  exists c, attempt t (r_session_init e) user pw pub priv pass = Some c /\
            credentials (emitted r) = [Call c].
Proof.
  unfold credentials. destruct t; cbn [verdict attempt]; run_all; settle.
Qed.

(** The errors and the credentials of a run of [main], step by step. *)
Lemma main_errors_credentials (e : environment) :
  let r := main e boot in
  let none := @nil event in
  errors (emitted r) =
    (errors (emitted (stage_init e)) ++
     match setup_of e with
     | BootstrapFailed => none
     | ConnectorFailed => errors (emitted (stage_connect e))
     | SessionFailed | SetupUndefined =>
         errors (emitted (stage_connect e))
           ++ errors (emitted (stage_session e))
     | ListenerFailed | SetupComplete =>
         errors (emitted (stage_connect e))
           ++ errors (emitted (stage_session e))
           ++ errors (emitted (stage_listen e))
     end)%list /\
  credentials (emitted r) =
    match setup_of e with
    | BootstrapFailed | ConnectorFailed => none
    | _ => credentials (emitted (stage_session e))
    end.
Proof.
  pose proof (init_errors e boot) as (_ & _ & Hi).
  pose proof (socket_connect_errors (serverip config) (serverport config)
                e (after (stage_init e))) as (_ & _ & Hc).
  pose proof (socket_listen_errors (localip config) (localport config)
                e (after (stage_session e))) as (_ & _ & Hl).
  pose proof (cleanup_errors e (after (stage_listen e))) as (Hbye & Hbye').
  fold (stage_init e) in Hi, Hc. fold (stage_connect e) in Hc.
  fold (stage_listen e) in Hl, Hbye, Hbye'.
  rewrite main_stages. unfold main_of_stages, errors, credentials in *.
  destruct (setup_of e); cbn [emitted];
    repeat (rewrite ?filter_app, ?Hi, ?Hc, ?Hl, ?Hbye, ?Hbye', ?app_nil_r;
            cbn [filter is_error is_credential app]);
    split; reflexivity.
Qed.

(** X15: the early returns of [main] rely on the failing step having
    logged its error: [main] returns 1 exactly when an error has been
    logged, and then exactly one; it returns 0 with no error logged. *)
Theorem main_error_logged (e : environment) :
  let r := main e boot in
  (value r = Val 0 /\ errors (emitted r) = []) \/
  (value r = Val 1 /\ exists msg, errors (emitted r) = [Log LogError msg]) \/
  (value r = Undefined /\ errors (emitted r) = []).
Proof.
  pose proof (setup_of_inv e) as Hinv.
  pose proof (init_errors e boot) as (Hi0 & Hi1 & _).
  pose proof (socket_connect_errors (serverip config) (serverport config)
                e (after (stage_init e))) as (Hc0 & Hc1 & _).
  pose proof (ssh_connect_errors
                (val_of (-1) (value (stage_connect e))) AUTH_PUBLICKEY
                (username config) (password config)
                (publickeyfile config) (privatekeyfile config)
                (passphrase config) e (after (stage_connect e)))
    as (Hs0 & Hs1).
  pose proof (socket_listen_errors (localip config) (localport config)
                e (after (stage_session e))) as (Hl0 & Hl1 & _).
  fold (stage_init e) in Hi0, Hi1, Hc0, Hc1.
  fold (stage_connect e) in Hc0, Hc1, Hs0, Hs1.
  fold (stage_session e) in Hs0, Hs1, Hl0, Hl1.
  fold (stage_listen e) in Hl0, Hl1.
  destruct (main_errors_credentials e) as (Herr & _).
  cbv zeta in *. rewrite Herr. clear Herr.
  assert (Hval : value (main e boot) =
                 match setup_of e with
                 | SetupComplete => Val 0
                 | SetupUndefined => Undefined
                 | _ => Val 1
                 end).
  { rewrite main_stages. unfold main_of_stages.
    destruct (setup_of e); reflexivity. }
  rewrite Hval. clear Hval.
  destruct (setup_of e).
  - right; left. split; [reflexivity|]. rewrite app_nil_r. auto.
  - destruct Hinv as (Hi & Hc).
    rewrite (Hi0 Hi). right; left. split; [reflexivity|]. auto.
  - destruct Hinv as (Hi & Hc & Hfd & Hs).
    rewrite (Hi0 Hi), Hc0 by congruence.
    right; left. split; [reflexivity|]. auto.
  - destruct Hinv as (Hi & Hc & Hfd & Hs & Hsession & Hl).
    rewrite (Hi0 Hi), Hc0, Hs0 by congruence.
    right; left. split; [reflexivity|]. auto.
  - destruct Hinv as (Hi & Hc & Hfd & Hs & Hsession & Hl & Hlfd).
    rewrite (Hi0 Hi), Hc0, Hs0, Hl0 by congruence.
    left. split; reflexivity.
  - destruct Hinv as (Hi & Hc & Hfd & Hs).
    rewrite (Hi0 Hi), Hc0, Hs0 by congruence.
    right; right. split; reflexivity.
Qed.

(** X16: [main] sets up the local listener only after authentication:
    whenever a run sets a socket option, binds or listens, the handshake
    has succeeded and the gateway has accepted the public key of the
    configuration, which is the one credential submitted. *)
Theorem main_listens_after_authentication (e : environment) :
  let r := main e boot in
  filter is_listener_call (emitted r) <> [] ->
  r_session_init e <> 0 /\
  r_session_handshake e = 0 /\
  r_userauth_publickey_fromfile e = 0 /\
  credentials (emitted r) =
    [Call (c_userauth_publickey_fromfile (r_session_init e)
             (username config) (publickeyfile config)
             (privatekeyfile config) (passphrase config))].
Proof.
  intros r Hlistener. subst r.
  pose proof (setup_of_inv e) as Hinv.
  pose proof (init_footprint e) as (_ & _ & _ & Hi & _).
  pose proof (socket_connect_footprint (serverip config) (serverport config)
                e (after (stage_init e))) as (_ & _ & _ & Hc & _).
  pose proof (ssh_connect_footprint
                (val_of (-1) (value (stage_connect e))) AUTH_PUBLICKEY
                (username config) (password config)
                (publickeyfile config) (privatekeyfile config)
                (passphrase config) e (after (stage_connect e)))
    as (_ & _ & Hs & _).
  pose proof (ssh_connect_success
                (val_of (-1) (value (stage_connect e))) AUTH_PUBLICKEY
                (username config) (password config)
                (publickeyfile config) (privatekeyfile config)
                (passphrase config) e (after (stage_connect e))) as Hauth.
  fold (stage_init e) in Hi, Hc. fold (stage_connect e) in Hc, Hs, Hauth.
  fold (stage_session e) in Hs, Hauth.
  destruct (main_errors_credentials e) as (_ & Hcred).
  cbv zeta in Hcred. rewrite Hcred.
  rewrite main_stages in Hlistener. unfold main_of_stages in Hlistener.
  destruct (setup_of e); cbn [emitted] in Hlistener;
    repeat (rewrite ?filter_app, ?Hi, ?Hc, ?Hs in Hlistener;
            cbn [filter is_listener_call app] in Hlistener);
    try congruence.
  all: destruct Hinv as (_ & _ & _ & Hsv & Hsession & _).
  all: destruct (Hauth Hsv Hsession) as (Hhs & Hverdict & c & Hc' & Hcs).
  all: cbn [attempt verdict] in Hc', Hverdict; injection Hc' as <-.
  all: rewrite Hcs; repeat split; assumption.
Qed.

Lemma main_listens_after_authentication_witness :
  let e := cooperative "publickey,password" in
  r_session_init e <> 0 /\
  r_session_handshake e = 0 /\
  r_userauth_publickey_fromfile e = 0 /\
  credentials (emitted (main e boot)) =
    [Call (c_userauth_publickey_fromfile (r_session_init e)
             (username config) (publickeyfile config)
             (privatekeyfile config) (passphrase config))].
Proof.
  apply (main_listens_after_authentication (cooperative "publickey,password")).
  vm_compute. discriminate.
Defined.

(** X17: [main] selects the public key, so the only credential it can
    submit is the key pair of the configuration, at most once; the
    password of the configuration is never passed to libssh2, whatever
    the gateway advertises or answers. *)
Theorem main_never_sends_password (e : environment) :
  let r := main e boot in
  (credentials (emitted r) = [] \/
   credentials (emitted r) =
     [Call (c_userauth_publickey_fromfile (r_session_init e)
              (username config) (publickeyfile config)
              (privatekeyfile config) (passphrase config))]) /\
  forall session user pw,
    ~ In (Call (c_userauth_password session user pw)) (emitted r).
Proof.
  intros r. subst r.
  assert (Hcred :
    credentials (emitted (main e boot)) = [] \/
    credentials (emitted (main e boot)) =
      [Call (c_userauth_publickey_fromfile (r_session_init e)
               (username config) (publickeyfile config)
               (privatekeyfile config) (passphrase config))]).
  { destruct (main_errors_credentials e) as (_ & Hcred).
    cbv zeta in Hcred. rewrite Hcred.
    pose proof (ssh_connect_credentials e (after (stage_connect e))
                  (val_of (-1) (value (stage_connect e)))
                  (username config) (password config)
                  (publickeyfile config) (privatekeyfile config)
                  (passphrase config) AUTH_PUBLICKEY) as Hs.
    fold (stage_session e) in Hs.
    assert (Hsession :
      credentials (emitted (stage_session e)) = [] \/
      credentials (emitted (stage_session e)) =
        [Call (c_userauth_publickey_fromfile (r_session_init e)
                 (username config) (publickeyfile config)
                 (privatekeyfile config) (passphrase config))]).
    { destruct Hs as [Hs | (c & Hc & Hs)]; [left; exact Hs|].
      cbn [attempt] in Hc. injection Hc as <-. right. exact Hs. }
    destruct (setup_of e); auto. }
  split; [exact Hcred|].
  intros session user pw Hin.
  assert (Hin' : In (Call (c_userauth_password session user pw))
                   (credentials (emitted (main e boot)))).
  { apply filter_In. split; [exact Hin | reflexivity]. }
  destruct Hcred as [Hcred | Hcred]; rewrite Hcred in Hin'.
  - exact Hin'.
  - destruct Hin' as [Hin' | []]. discriminate Hin'.
Qed.
